(** * temha MCP proxy: STDIO <-> HTTP relay with OAuth (src/bin/cli.js)

    A shallow embedding of the relay's authentication engine and relay loop,
    with the properties of its specification stated over it.

    Conventions of the embedding.
    - A JavaScript string is a [string]: a sequence of code units below 256.
    - A JavaScript number is an integer [Z] (epoch seconds, lifetimes, HTTP
      status codes and JSON-RPC error codes are all integers).  Where the
      program computes with a number that a response supplies, the result
      is rounded as a double rounds it ([Js.double]).
    - A [Buffer] is a [list byte].
    - An [async] function is a state transformer over [World] returning an
      [Outcome]: it returns, throws, never settles, or brings the process
      down.  One unit of work runs to completion before the next starts. *)

From Stdlib Require Import ZArith List Bool Lia.
From Stdlib.Strings Require Import String Ascii Byte.
From Stdlib Require Import DecimalString DecimalZ.
Import ListNotations.
Local Open Scope string_scope.
Local Open Scope Z_scope.

(* ====================================================================== *)
(** * JavaScript strings *)
(* ====================================================================== *)

Module Js.

(** Template literals and [String(n)] of an integer. *)
Definition string_of_Z (z : Z) : string := NilZero.string_of_int (Z.to_int z).

Definition ascii_eqb (a b : ascii) : bool := Ascii.eqb a b.

Definition nl : ascii := "010"%char.

(** [s.indexOf('\n')]: [None] stands for -1. *)
Fixpoint indexOf_nl (s : string) : option nat :=
  match s with
  | EmptyString => None
  | String c r =>
      if ascii_eqb c nl then Some O
      else match indexOf_nl r with Some i => Some (S i) | None => None end
  end.

(** [s.slice(0,i)] and [s.slice(i)] for [0 <= i]. *)
Fixpoint slice_to (i : nat) (s : string) : string :=
  match i, s with
  | S i', String c r => String c (slice_to i' r)
  | _, _ => EmptyString
  end.

Fixpoint slice_from (i : nat) (s : string) : string :=
  match i, s with
  | S i', String _ r => slice_from i' r
  | _, _ => s
  end.

(** White space and line terminators among the code units below 256:
    TAB, LF, VT, FF, CR, SP and NBSP. *)
Definition is_space (c : ascii) : bool :=
  let n := nat_of_ascii c in
  (Nat.leb 9 n && Nat.leb n 13) || Nat.eqb n 32 || Nat.eqb n 160.

Fixpoint trimStart (s : string) : string :=
  match s with
  | String c r => if is_space c then trimStart r else s
  | EmptyString => EmptyString
  end.

(** Drops the trailing run of characters satisfying [p]. *)
Fixpoint drop_trailing (p : ascii -> bool) (s : string) : string :=
  match s with
  | EmptyString => EmptyString
  | String c r =>
      match drop_trailing p r with
      | EmptyString => if p c then EmptyString else String c EmptyString
      | r' => String c r'
      end
  end.

Definition trimEnd (s : string) : string := drop_trailing is_space s.

(** [s.trim()] *)
Definition trim (s : string) : string := trimEnd (trimStart s).

(** [s.replace(/c/g, d)] for a single character [c]. *)
Fixpoint replace_all (c d : ascii) (s : string) : string :=
  match s with
  | EmptyString => EmptyString
  | String x r => String (if ascii_eqb x c then d else x) (replace_all c d r)
  end.

(** Truthiness of the values the program tests. *)
Definition truthy_str (s : string) : bool :=
  match s with EmptyString => false | _ => true end.

Definition truthy_opt (o : option string) : bool :=
  match o with Some s => truthy_str s | None => false end.

Definition truthy_num (z : Z) : bool := negb (z =? 0).

(** [String(x)] of a possibly undefined string. *)
Definition String_of (o : option string) : string :=
  match o with Some s => s | None => "undefined" end.

(** The double nearest to an integer.  Every integer up to 2^53 in
    magnitude is a double; a larger one keeps its 53 leading bits, rounded
    to nearest with ties to the even significand.  (Integers beyond the
    largest double, which round to [Infinity], are not covered.) *)
Definition double (z : Z) : Z :=
  let a := Z.abs z in
  if a <=? 2 ^ 53 then z
  else
    let e := Z.log2 a - 52 in
    let q := Z.shiftr a e in
    let r := Z.land a (Z.ones e) in
    let half := Z.shiftl 1 (e - 1) in
    let up := (half <? r) || ((r =? half) && Z.odd q) in
    Z.sgn z * Z.shiftl (if up then q + 1 else q) e.

(** [x + y] and [x - y] of two numbers. *)
Definition plus (x y : Z) : Z := double (x + y).

Definition minus (x y : Z) : Z := double (x - y).

End Js.

(* ====================================================================== *)
(** * JSON values and [JSON.stringify] *)
(* ====================================================================== *)

#[warnings="-register-all"] Inductive json : Type :=
| JNull
| JBool (b : bool)
| JNum (z : Z)
| JStr (s : string)
| JArr (l : list json)
| JObj (m : list (string * json)).

Module Json.

Definition dq : string := String (ascii_of_nat 34) EmptyString.

Definition hex_digit (n : nat) : ascii :=
  nth n (list_ascii_of_string "0123456789abcdef") "0"%char.

(** One code unit inside a quoted JSON string. *)
Definition escape_char (c : ascii) : string :=
  let n := nat_of_ascii c in
  if Nat.eqb n 34 then String (ascii_of_nat 92) dq
  else if Nat.eqb n 92 then "\\"
  else if Nat.eqb n 8 then "\b"
  else if Nat.eqb n 9 then "\t"
  else if Nat.eqb n 10 then "\n"
  else if Nat.eqb n 12 then "\f"
  else if Nat.eqb n 13 then "\r"
  else if Nat.ltb n 32 then
    "\u00" ++ String (hex_digit (Nat.div n 16)) (String (hex_digit (Nat.modulo n 16)) EmptyString)
  else String c EmptyString.

Fixpoint escape (s : string) : string :=
  match s with
  | EmptyString => EmptyString
  | String c r => escape_char c ++ escape r
  end.

Definition quote (s : string) : string := dq ++ escape s ++ dq.

Fixpoint join (sep : string) (l : list string) : string :=
  match l with
  | [] => EmptyString
  | [x] => x
  | x :: r => x ++ sep ++ join sep r
  end.

(** [JSON.stringify(v)] *)
Fixpoint stringify (v : json) : string :=
  match v with
  | JNull => "null"
  | JBool true => "true"
  | JBool false => "false"
  | JNum z => Js.string_of_Z z
  | JStr s => quote s
  | JArr l => "[" ++ join "," (map stringify l) ++ "]"
  | JObj m =>
      "{" ++ join "," (map (fun kv => quote (fst kv) ++ ":" ++ stringify (snd kv)) m) ++ "}"
  end.

Fixpoint lookup (k : string) (m : list (string * json)) : option json :=
  match m with
  | [] => None
  | (k', v) :: r => if String.eqb k k' then Some v else lookup k r
  end.

(** [v.id] for a parsed JSON value [v]: reading a property of [null] throws
    a TypeError ([inl]); a value that is not an object has no such property
    ([inr None] is [undefined]). *)
Definition get_id (v : json) : string + option json :=
  match v with
  | JNull => inl "Cannot read properties of null (reading 'id')"
  | JObj m => inr (lookup "id" m)
  | _ => inr None
  end.

(** Truthiness of a JSON value: [null], [false], [0] and the empty string
    are falsy, every array and object is truthy. *)
Definition truthy (v : json) : bool :=
  match v with
  | JNull => false
  | JBool b => b
  | JNum z => Js.truthy_num z
  | JStr s => Js.truthy_str s
  | JArr _ | JObj _ => true
  end.

(** [String(v)]: an array is its elements joined by commas, [null]
    elements being empty; an object is [[object Object]].  (A number is
    written in decimal, as JavaScript writes integers below 10^21.) *)
Fixpoint ToString (v : json) : string :=
  match v with
  | JNull => "null"
  | JBool true => "true"
  | JBool false => "false"
  | JNum z => Js.string_of_Z z
  | JStr s => s
  | JArr l =>
      join "," (map (fun x => match x with JNull => EmptyString | _ => ToString x end) l)
  | JObj _ => "[object Object]"
  end.

(** [x ?? null] *)
Definition nullish (o : option json) : json :=
  match o with Some v => v | None => JNull end.

(** The JSON-RPC error object the relay writes. *)
Definition rpc_error (id : json) (code : Z) (message : string) : json :=
  JObj [("jsonrpc", JStr "2.0"); ("id", id);
        ("error", JObj [("code", JNum code); ("message", JStr message)])].

End Json.

(* ====================================================================== *)
(** * Buffers, base64 and SHA-256 (the runtime's [Buffer] and [crypto]) *)
(* ====================================================================== *)

Module Buf.

Definition byte_val (b : byte) : Z := Z.of_N (Byte.to_N b).

Definition byte_of_Z (z : Z) : byte :=
  match Byte.of_N (Z.to_N (z mod 256)) with Some b => b | None => x00 end.

(** UTF-8 encoding of a string of code units below 256
    ([Buffer.from(str)], [hash.update(str)]). *)
Fixpoint utf8 (s : string) : list byte :=
  match s with
  | EmptyString => []
  | String c r =>
      let n := Z.of_nat (nat_of_ascii c) in
      if n <? 128 then byte_of_Z n :: utf8 r
      else byte_of_Z (192 + n / 64) :: byte_of_Z (128 + n mod 64) :: utf8 r
  end.

Definition std_alphabet : string :=
  "ABCDEFGHIJKLMNOPQRSTUVWXYZabcdefghijklmnopqrstuvwxyz0123456789+/".

Definition url_alphabet : string :=
  "ABCDEFGHIJKLMNOPQRSTUVWXYZabcdefghijklmnopqrstuvwxyz0123456789-_".

Definition pad : ascii := "="%char.

Definition digit (alphabet : string) (i : Z) : ascii :=
  nth (Z.to_nat i) (list_ascii_of_string alphabet) pad.

(** [buf.toString('base64')]: the standard alphabet, padded with [=]. *)
Fixpoint base64 (l : list byte) : string :=
  let d := digit std_alphabet in
  match l with
  | [] => EmptyString
  | [a] =>
      let a := byte_val a in
      String (d (Z.shiftr a 2))
        (String (d (Z.shiftl (Z.land a 3) 4)) (String pad (String pad EmptyString)))
  | [a; b] =>
      let a := byte_val a in
      let b := byte_val b in
      String (d (Z.shiftr a 2))
        (String (d (Z.lor (Z.shiftl (Z.land a 3) 4) (Z.shiftr b 4)))
           (String (d (Z.shiftl (Z.land b 15) 2)) (String pad EmptyString)))
  | a :: b :: c :: r =>
      let a := byte_val a in
      let b := byte_val b in
      let c := byte_val c in
      String (d (Z.shiftr a 2))
        (String (d (Z.lor (Z.shiftl (Z.land a 3) 4) (Z.shiftr b 4)))
           (String (d (Z.lor (Z.shiftl (Z.land b 15) 2) (Z.shiftr c 6)))
              (String (d (Z.land c 63)) (base64 r))))
  end.

(** The reference encoder of the specification: URL-safe base64 without
    padding.  Each group of three octets is read as one 24-bit number and
    cut into four 6-bit digits of the URL-safe alphabet; a final group of one
    or two octets is completed with zero bits and yields two or three digits,
    and no padding character is written. *)
Fixpoint base64url_nopad (l : list byte) : string :=
  let d := digit url_alphabet in
  match l with
  | [] => EmptyString
  | [a] =>
      let n := byte_val a * 65536 in
      String (d (n / 262144)) (String (d ((n / 4096) mod 64)) EmptyString)
  | [a; b] =>
      let n := byte_val a * 65536 + byte_val b * 256 in
      String (d (n / 262144))
        (String (d ((n / 4096) mod 64)) (String (d ((n / 64) mod 64)) EmptyString))
  | a :: b :: c :: r =>
      let n := byte_val a * 65536 + byte_val b * 256 + byte_val c in
      String (d (n / 262144))
        (String (d ((n / 4096) mod 64))
           (String (d ((n / 64) mod 64)) (String (d (n mod 64)) (base64url_nopad r))))
  end.

End Buf.

Module Sha256.

Definition w32 (x : Z) : Z := x mod 4294967296.
Definition add32 (x y : Z) : Z := w32 (x + y).
Definition rotr (n x : Z) : Z := Z.lor (Z.shiftr x n) (w32 (Z.shiftl x (32 - n))).
Definition not32 (x : Z) : Z := 4294967295 - x.

Definition Ch (x y z : Z) : Z := Z.lxor (Z.land x y) (Z.land (not32 x) z).
Definition Maj (x y z : Z) : Z := Z.lxor (Z.lxor (Z.land x y) (Z.land x z)) (Z.land y z).
Definition Sigma0 (x : Z) : Z := Z.lxor (Z.lxor (rotr 2 x) (rotr 13 x)) (rotr 22 x).
Definition Sigma1 (x : Z) : Z := Z.lxor (Z.lxor (rotr 6 x) (rotr 11 x)) (rotr 25 x).
Definition sigma0 (x : Z) : Z := Z.lxor (Z.lxor (rotr 7 x) (rotr 18 x)) (Z.shiftr x 3).
Definition sigma1 (x : Z) : Z := Z.lxor (Z.lxor (rotr 17 x) (rotr 19 x)) (Z.shiftr x 10).

(** The constants of FIPS 180-4, 4.2.2 and 5.3.3: the first 32 bits of the
    fractional parts of the cube roots of the first 64 primes, and of the
    square roots of the first 8. *)
Definition is_prime (n : nat) : bool :=
  forallb (fun d => negb (Nat.eqb (Nat.modulo n d) 0)) (seq 2 (n - 2)).

Definition primes : list Z := map Z.of_nat (filter is_prime (seq 2 310)).

Fixpoint cube_root (steps : nat) (lo hi n : Z) : Z :=
  match steps with
  | O => lo
  | S k =>
      let mid := (lo + hi) / 2 in
      if mid * mid * mid <=? n then cube_root k mid hi n else cube_root k lo mid n
  end.

Definition K : list Z :=
  map (fun p => w32 (cube_root 40 0 (2 ^ 36) (p * 2 ^ 96))) primes.

Definition H0 : list Z :=
  map (fun p => w32 (Z.sqrt (p * 2 ^ 64))) (firstn 8 primes).

(** Message padding: a one bit, zeros up to 56 modulo 64 octets, then the
    bit length on 64 bits, big-endian. *)
Definition be_bytes (n : nat) (x : Z) : list Z :=
  map (fun i => Z.shiftr x (8 * Z.of_nat (n - 1 - i)) mod 256) (seq 0 n).

Definition padding (len : Z) : list Z :=
  let zeros := (55 - len) mod 64 in
  (128 :: repeat 0 (Z.to_nat zeros) ++ be_bytes 8 (8 * len))%list.

Fixpoint words (l : list Z) : list Z :=
  match l with
  | a :: b :: c :: d :: r => (((a * 256 + b) * 256 + c) * 256 + d) :: words r
  | _ => []
  end.

Fixpoint blocks (n : nat) (l : list Z) : list (list Z) :=
  match n with
  | O => []
  | S n' => firstn 16 l :: blocks n' (skipn 16 l)
  end.

Fixpoint schedule (k : nat) (w : list Z) : list Z :=
  match k with
  | O => w
  | S k' =>
      let t := List.length w in
      let g i := nth (t - i) w 0 in
      schedule k' (w ++ [add32 (add32 (sigma1 (g 2%nat)) (g 7%nat))
                               (add32 (sigma0 (g 15%nat)) (g 16%nat))])%list
  end.

Record regs := { ra : Z; rb : Z; rc : Z; rd : Z; re : Z; rf : Z; rg : Z; rh : Z }.

Definition round (s : regs) (kw : Z * Z) : regs :=
  let t1 := add32 (add32 (add32 (rh s) (Sigma1 (re s))) (Ch (re s) (rf s) (rg s)))
                  (add32 (fst kw) (snd kw)) in
  let t2 := add32 (Sigma0 (ra s)) (Maj (ra s) (rb s) (rc s)) in
  {| ra := add32 t1 t2; rb := ra s; rc := rb s; rd := rc s;
     re := add32 (rd s) t1; rf := re s; rg := rf s; rh := rg s |}.

Definition regs_of (h : list Z) : regs :=
  {| ra := nth 0 h 0; rb := nth 1 h 0; rc := nth 2 h 0; rd := nth 3 h 0;
     re := nth 4 h 0; rf := nth 5 h 0; rg := nth 6 h 0; rh := nth 7 h 0 |}.

Definition list_of (s : regs) : list Z :=
  [ra s; rb s; rc s; rd s; re s; rf s; rg s; rh s].

Definition compress (h : list Z) (block : list Z) : list Z :=
  let w := schedule 48 block in
  let s := fold_left round (combine K w) (regs_of h) in
  map (fun p => add32 (fst p) (snd p)) (combine h (list_of s)).

(** [createHash('sha256').update(m).digest()] *)
Definition digest (m : list byte) : list byte :=
  let bytes := map Buf.byte_val m in
  let padded := (bytes ++ padding (Z.of_nat (List.length m)))%list in
  let ws := words padded in
  let h := fold_left compress (blocks (Nat.div (List.length ws) 16) ws) H0 in
  map Buf.byte_of_Z (flat_map (be_bytes 4) h).

End Sha256.

(* ====================================================================== *)
(** * PKCE (cli.js lines 39-40) *)
(* ====================================================================== *)

(** [b64url(buf)]: base64, then [+] to [-], [/] to [_], and the trailing run
    of [=] removed. *)
Definition b64url (buf : list byte) : string :=
  Js.drop_trailing (Js.ascii_eqb "="%char)
    (Js.replace_all "/"%char "_"%char
       (Js.replace_all "+"%char "-"%char (Buf.base64 buf))).

Record PKCE := { code_verifier : string; code_challenge : string }.

(** [genPKCE()], given the 32 octets that [randomBytes(32)] returns. *)
Definition genPKCE (random32 : list byte) : PKCE :=
  let code_verifier := b64url random32 in
  let challenge := Sha256.digest (Buf.utf8 code_verifier) in
  {| code_verifier := code_verifier; code_challenge := b64url challenge |}.

Definition rfc7636_octets : list byte :=
  map Buf.byte_of_Z
    [116; 24; 223; 180; 151; 153; 224; 37; 79; 250; 96; 125; 216; 173; 187; 186;
     22; 212; 37; 77; 105; 214; 191; 240; 91; 88; 5; 88; 83; 132; 141; 121].

(** Helpers used to relate [b64url] to the reference encoder. *)
Definition url_char (c : ascii) : ascii :=
  let c1 := if Js.ascii_eqb c "+"%char then "-"%char else c in
  if Js.ascii_eqb c1 "/"%char then "_"%char else c1.

Definition is_pad : ascii -> bool := Js.ascii_eqb "="%char.

(* ====================================================================== *)
(** * Hard-coded configuration (cli.js lines 18-27) *)
(* ====================================================================== *)

Module CONFIG.
Definition REMOTE_MCP_URL : string := "http://127.0.0.1:4000/".
Definition OAUTH_REDIRECT_URI : string := "http://127.0.0.1:38573/callback".
Definition OAUTH_SCOPES : string := "openid profile mcp".
End CONFIG.

(** [`${remote.protocol}//${remote.host}`] of [REMOTE_MCP_URL]. *)
Definition RESOURCE_ORIGIN : string := "http://127.0.0.1:4000".

(* ====================================================================== *)
(** * Data model *)
(* ====================================================================== *)

(** The fields of a [URL] object that the program reads. *)
Record URL := { protocol : string; host : string; pathname : string }.

(** Protected-resource metadata (RFC 9728). *)
Record PRM := {
  prm_authorization_servers : option (list string);
  prm_authorization_server : option string;
  prm_issuer : option string
}.

(** Authorization-server metadata: the discovery document. *)
Record ASMeta := {
  issuer : option string;
  authorization_endpoint : option string;
  token_endpoint : option string;
  registration_endpoint : option string
}.

(** The registration endpoint's answer, and the cached client metadata. *)
Record Registration := {
  reg_client_id : string;
  reg_redirect_uris : option (list string)
}.

Record Client := {
  client_issuer : option string;
  client_id : string;
  redirect_uris : list string
}.

(** A token-endpoint answer; once stamped with [expires_at], the token
    record of the store.  [expires_in] is the JSON value the response gives
    (the program computes with it whatever its type); [expires_at] is the
    number the program has stamped, [None] when there is no such number
    ([undefined], or a stamp that came out as [NaN]). *)
Record Token := {
  access_token : string;
  refresh_token : option string;
  expires_in : option json;
  expires_at : option Z
}.

(** The three JSON files under [STORE_DIR].  [None] is a file that is
    missing or does not parse: [readJSON] returns [null] for both. *)
Record Files := {
  tokens_json : option Token;
  as_metadata_json : option ASMeta;
  client_metadata_json : option Client
}.

Record Path (A : Type) := {
  get : Files -> option A;
  put : A -> Files -> Files
}.
Arguments get {A} _ _.
Arguments put {A} _ _ _.

Definition TOKENS_FILE : Path Token :=
  {| get := tokens_json;
     put := fun t f => {| tokens_json := Some t;
                          as_metadata_json := as_metadata_json f;
                          client_metadata_json := client_metadata_json f |} |}.

Definition DISCOVERY_FILE : Path ASMeta :=
  {| get := as_metadata_json;
     put := fun d f => {| tokens_json := tokens_json f;
                          as_metadata_json := Some d;
                          client_metadata_json := client_metadata_json f |} |}.

Definition CLIENT_FILE : Path Client :=
  {| get := client_metadata_json;
     put := fun c f => {| tokens_json := tokens_json f;
                          as_metadata_json := as_metadata_json f;
                          client_metadata_json := Some c |} |}.

(** ** HTTP *)

Inductive Body :=
| NoBody
| Text (s : string)
| Form (params : list (string * string)).

Record Request := {
  url : string;
  method : string;
  headers : list (string * string);
  body : Body
}.

(** A response: [json_body] is what [res.json()] yields, a rejection message
    or the parsed body. *)
Record Response (A : Type) := {
  status : Z;
  text : string;
  json_body : string + A
}.
Arguments status {A} _.
Arguments text {A} _.
Arguments json_body {A} _.

(** What a [fetch] promise does: reject, never settle, or fulfil. *)
Inductive Reply (A : Type) :=
| Rejected (message : string)
| Pending
| Fulfilled (r : Response A).
Arguments Rejected {A} _.
Arguments Pending {A}.
Arguments Fulfilled {A} _.

(** The authorization URL: the endpoint and the parameters set on it. *)
Record AuthURL := {
  auth_endpoint : string;
  searchParams : list (string * string)
}.

(** An inbound request on the callback listener, as [new URL(req.url, base)]
    decomposes it. *)
Record CallbackURL := {
  cb_pathname : string;
  cb_code : option string;
  cb_state : option string
}.

(** Effects visible outside the process, in order. *)
Inductive Event :=
| EvFetch (r : Request)
| EvListen (port : Z)
| EvOpenBrowser (u : AuthURL)
| EvRespond (code : Z) (page : string)
| EvLog (line : string).

(** The callback port: free, or bound by a listener that closes at the given
    time, if a close has been scheduled at all. *)
Inductive Port :=
| Free
| Bound (close_at : option Z).

Definition port_busy (p : Port) (now : Z) : bool :=
  match p with
  | Free => false
  | Bound None => true
  | Bound (Some t) => now <? t
  end.

(** ** The world outside the program text *)

Record World := {
  fs : Files;
  clock : Z;                (* Date.now(), milliseconds *)
  trace : list Event;
  stdout : list string;
  listener : Port;
  draws : nat               (* calls to randomBytes so far *)
}.

Definition set_fs (f : Files) (w : World) : World :=
  {| fs := f; clock := clock w; trace := trace w; stdout := stdout w;
     listener := listener w; draws := draws w |}.

Definition tick (dt : Z) (w : World) : World :=
  {| fs := fs w; clock := clock w + dt; trace := trace w; stdout := stdout w;
     listener := listener w; draws := draws w |}.

Definition emit (e : Event) (w : World) : World :=
  {| fs := fs w; clock := clock w; trace := (trace w ++ [e])%list; stdout := stdout w;
     listener := listener w; draws := draws w |}.

Definition print (s : string) (w : World) : World :=
  {| fs := fs w; clock := clock w; trace := trace w; stdout := (stdout w ++ [s])%list;
     listener := listener w; draws := draws w |}.

Definition set_listener (p : Port) (w : World) : World :=
  {| fs := fs w; clock := clock w; trace := trace w; stdout := stdout w;
     listener := p; draws := draws w |}.

Definition drawn (w : World) : World :=
  {| fs := fs w; clock := clock w; trace := trace w; stdout := stdout w;
     listener := listener w; draws := S (draws w) |}.

(** The environment: the runtime's parsers and everything that answers the
    process.  Each answer may depend on all that happened before and comes
    after some delay in milliseconds.  [ToNumber] is the conversion the
    runtime applies to a string used as a number; [None] is [NaN]. *)
Record Env := {
  JSON_parse : string -> option json;
  URL_parse : string -> option URL;
  ToNumber : string -> option Z;
  randomBytes : nat -> nat -> list byte;
  resource_server : list Event -> Request -> Z * Reply PRM;
  metadata_server : list Event -> Request -> Z * Reply ASMeta;
  registration_server : list Event -> Request -> Z * Reply Registration;
  token_server : list Event -> Request -> Z * Reply Token;
  remote_mcp : list Event -> Request -> Z * Reply json;
  browser : list Event -> AuthURL -> list (Z * option CallbackURL)
}.

(* ====================================================================== *)
(** * Asynchronous computations *)
(* ====================================================================== *)

Inductive Outcome (A : Type) :=
| Ret (a : A)               (* fulfilled *)
| Throw (message : string)  (* rejected with [new Error(message)] *)
| Hang                      (* never settles *)
| Crash (message : string). (* uncaught: the process terminates *)
Arguments Ret {A} _.
Arguments Throw {A} _.
Arguments Hang {A}.
Arguments Crash {A} _.

Definition M (A : Type) : Type := World -> Outcome A * World.

Definition ret {A} (a : A) : M A := fun w => (Ret a, w).

Definition throw {A} (message : string) : M A := fun w => (Throw message, w).

Definition bind {A B} (m : M A) (k : A -> M B) : M B :=
  fun w =>
    match m w with
    | (Ret a, w') => k a w'
    | (Throw e, w') => (Throw e, w')
    | (Hang, w') => (Hang, w')
    | (Crash e, w') => (Crash e, w')
    end.

(** [try { m } catch (e) { handler(e.message) }] *)
Definition try_catch {A} (m : M A) (handler : string -> M A) : M A :=
  fun w =>
    match m w with
    | (Throw e, w') => handler e w'
    | r => r
    end.

Declare Scope async_scope.
Delimit Scope async_scope with async.
Notation "x <- m ;; k" := (bind m (fun x => k))
  (at level 61, m at next level, right associativity) : async_scope.
Notation "m ;; k" := (bind m (fun _ => k))
  (at level 61, right associativity) : async_scope.
Local Open Scope async_scope.

Definition modify (f : World -> World) : M unit := fun w => (Ret tt, f w).

Definition Date_now : M Z := fun w => (Ret (clock w), w).

(** [Math.floor(Date.now()/1000)] *)
Definition now_seconds : M Z := (t <- Date_now ;; ret (t / 1000)).

(** [readJSON(path)] and [writeJSON(path, obj)] *)
Definition readJSON {A} (path : Path A) : M (option A) :=
  fun w => (Ret (get path (fs w)), w).

Definition writeJSON {A} (path : Path A) (obj : A) : M unit :=
  modify (fun w => set_fs (put path obj (fs w)) w).

(** [console.error(...)] *)
Definition console_error (line : string) : M unit := modify (emit (EvLog line)).

(** [process.stdout.write(s)] *)
Definition stdout_write (s : string) : M unit := modify (print s).

(** [await fetch(url, init)] against one of the servers of the environment. *)
Definition fetch {A} (server : list Event -> Request -> Z * Reply A) (rq : Request)
  : M (Response A) :=
  fun w =>
    let '(dt, reply) := server (trace w) rq in
    let w' := tick dt (emit (EvFetch rq) w) in
    match reply with
    | Rejected e => (Throw e, w')
    | Pending => (Hang, w')
    | Fulfilled r => (Ret r, w')
    end.

Definition ok {A} (r : Response A) : bool := (200 <=? status r) && (status r <=? 299).

(** [await res.json()] *)
Definition res_json {A} (r : Response A) : M A :=
  match json_body r with
  | inr a => ret a
  | inl e => throw e
  end.

Definition GET (u : string) : Request :=
  {| url := u; method := "GET"; headers := []; body := NoBody |}.

(* ====================================================================== *)
(** * The program *)
(* ====================================================================== *)

Section Program.

Variable E : Env.

(** ** Discovery (RFC 9728 + RFC 8414) *)

(** [fetchJSON(u)] *)
Definition fetchJSON {A} (server : list Event -> Request -> Z * Reply A) (u : string)
  : M A :=
  r <- fetch server (GET u) ;;
  if negb (ok r) then throw (u ++ " " ++ Js.string_of_Z (status r))
  else res_json r.

(** [getPRM(resourceOrigin)] *)
Definition getPRM (resourceOrigin : string) : M PRM :=
  fetchJSON (resource_server E) (resourceOrigin ++ "/.well-known/oauth-protected-resource").

(** [asWellKnownFromIssuer(issuer)]; [inl] is the TypeError of [new URL]. *)
Definition asWellKnownFromIssuer (issuer : string) : string + string :=
  match URL_parse E issuer with
  | None => inl "Invalid URL"
  | Some iu =>
      let base := protocol iu ++ "//" ++ host iu in
      let path := Js.drop_trailing (Js.ascii_eqb "/"%char) (pathname iu) in
      if Js.truthy_str path && negb (String.eqb path "/") then
        inr (base ++ "/.well-known/oauth-authorization-server" ++ path)
      else
        inr (base ++ "/.well-known/oauth-authorization-server")
  end.

Definition set_issuer (i : string) (d : ASMeta) : ASMeta :=
  {| issuer := Some i;
     authorization_endpoint := authorization_endpoint d;
     token_endpoint := token_endpoint d;
     registration_endpoint := registration_endpoint d |}.

(** [getASMetadata(issuer)] *)
Definition getASMetadata (iss : string) : M ASMeta :=
  match asWellKnownFromIssuer iss with
  | inl e => throw e
  | inr u =>
      json <- fetchJSON (metadata_server E) u ;;
      if negb (Js.truthy_opt (issuer json)) then ret (set_issuer iss json)
      else ret json
  end.

(** [a || b] on possibly undefined strings. *)
Definition or_else (a b : option string) : option string :=
  if Js.truthy_opt a then a else b.

(** [prm.authorization_servers?.[0]] *)
Definition first_server (prm : PRM) : option string :=
  match prm_authorization_servers prm with
  | Some (s :: _) => Some s
  | _ => None
  end.

(** [discover()] after a cache miss: steps 1 and 2. *)
Definition discover_remote : M ASMeta :=
  prm <- getPRM RESOURCE_ORIGIN ;;
  let iss := or_else (or_else (first_server prm) (prm_authorization_server prm))
                     (prm_issuer prm) in
  if negb (Js.truthy_opt iss) then throw "[prm] no authorization server listed"
  else
    asMeta <- getASMetadata (Js.String_of iss) ;;
    if negb (Js.truthy_opt (authorization_endpoint asMeta))
       || negb (Js.truthy_opt (token_endpoint asMeta))
    then throw "[as] invalid AS metadata: missing endpoints"
    else writeJSON DISCOVERY_FILE asMeta ;; ret asMeta.

(** [discover()] *)
Definition discover : M ASMeta :=
  cached <- readJSON DISCOVERY_FILE ;;
  match cached with
  | Some c => if Js.truthy_opt (issuer c) then ret c else discover_remote
  | None => discover_remote
  end.

(** ** Dynamic client registration and tokens *)

(** [a === b] on possibly undefined strings. *)
Definition strict_eq (a b : option string) : bool :=
  match a, b with
  | Some x, Some y => String.eqb x y
  | None, None => true
  | _, _ => false
  end.

Definition registration_body : json :=
  JObj [("application_type", JStr "native");
        ("grant_types", JArr [JStr "authorization_code"; JStr "refresh_token"]);
        ("response_types", JArr [JStr "code"]);
        ("token_endpoint_auth_method", JStr "none");
        ("redirect_uris", JArr [JStr CONFIG.OAUTH_REDIRECT_URI]);
        ("client_name", JStr "MCP STDIO OAuth Proxy (temha)");
        ("scope", JStr CONFIG.OAUTH_SCOPES)].

(** [dynamicRegister(as)] after a cache miss. *)
Definition register_remote (a : ASMeta) : M Client :=
  if negb (Js.truthy_opt (registration_endpoint a)) then
    throw "[oidc] no registration endpoint: enable DCR or pre-provision a client"
  else
    res <- fetch (registration_server E)
             {| url := Js.String_of (registration_endpoint a); method := "POST";
                headers := [("Content-Type", "application/json")];
                body := Text (Json.stringify registration_body) |} ;;
    if negb (ok res) then
      throw ("[oidc] registration failed " ++ Js.string_of_Z (status res) ++ ": " ++ text res)
    else
      reg <- res_json res ;;
      let meta := {| client_issuer := issuer a;
                     client_id := reg_client_id reg;
                     redirect_uris :=
                       match reg_redirect_uris reg with
                       | Some l => l
                       | None => [CONFIG.OAUTH_REDIRECT_URI]
                       end |} in
      writeJSON CLIENT_FILE meta ;; ret meta.

(** [dynamicRegister(as)] *)
Definition dynamicRegister (a : ASMeta) : M Client :=
  cached <- readJSON CLIENT_FILE ;;
  match cached with
  | Some c => if strict_eq (client_issuer c) (issuer a) then ret c else register_remote a
  | None => register_remote a
  end.

(** [tok.expires_in || 3600] *)
Definition lifetime (tok : Token) : json :=
  match expires_in tok with
  | Some v => if Json.truthy v then v else JNum 3600
  | None => JNum 3600
  end.

(** [now + v] for a number [now]: a sum of numbers when [v] is a number, a
    boolean or [null]; the concatenation of [String(now)] and [String(v)]
    when [v] is a string, an array or an object. *)
Definition js_plus (now : Z) (v : json) : Z + string :=
  match v with
  | JNum n => inl (Js.plus now n)
  | JBool b => inl (Js.plus now (if b then 1 else 0))
  | JNull => inl (Js.plus now 0)
  | JStr _ | JArr _ | JObj _ => inr (Js.string_of_Z now ++ Json.ToString v)
  end.

(** [x - y] for a number [y]: a string [x] is converted to a number first;
    [None] is [NaN]. *)
Definition js_minus (x : Z + string) (y : Z) : option Z :=
  match x with
  | inl n => Some (Js.minus n y)
  | inr s =>
      match ToNumber E s with
      | Some n => Some (Js.minus n y)
      | None => None
      end
  end.

(** [now + (tok.expires_in || 3600) - 30] *)
Definition stamp (now : Z) (tok : Token) : option Z :=
  js_minus (js_plus now (lifetime tok)) 30.

Definition stamped (t : option Z) (tok : Token) : Token :=
  {| access_token := access_token tok;
     refresh_token := refresh_token tok;
     expires_in := expires_in tok;
     expires_at := t |}.

Definition set_expires_at (t : Z) (tok : Token) : Token := stamped (Some t) tok.

(** [fetchToken(as, client, params)] *)
Definition fetchToken (a : ASMeta) (client : Client) (params : list (string * string))
  : M Token :=
  let body := Form (params ++ [("client_id", client_id client)])%list in
  res <- fetch (token_server E)
           {| url := Js.String_of (token_endpoint a); method := "POST";
              headers := [("Content-Type", "application/x-www-form-urlencoded")];
              body := body |} ;;
  if negb (ok res) then
    throw ("[oauth] token error " ++ Js.string_of_Z (status res) ++ ": " ++ text res)
  else
    tok <- res_json res ;;
    now <- now_seconds ;;
    let tok := stamped (stamp now tok) tok in
    writeJSON TOKENS_FILE tok ;;
    ret tok.

(** [ensureClient(as)] *)
Definition ensureClient (a : ASMeta) : M Client := dynamicRegister a.

(** ** Interactive login *)

(** What one inbound request does to the pending promise. *)
Inductive Settle :=
| Unsettled
| Resolve (code : string)
| Reject (message : string).

(** The request listener of [createServer], for the login bound to [state]. *)
Definition on_request (state : string) (rq : option CallbackURL) : M Settle :=
  match rq with
  | None => ret (Reject "Invalid URL")
  | Some u =>
      if negb (String.eqb (cb_pathname u) "/callback") then
        modify (emit (EvRespond 404 EmptyString)) ;; ret Unsettled
      else if negb (Js.truthy_opt (cb_code u)) || negb (strict_eq (cb_state u) (Some state))
      then
        modify (emit (EvRespond 400 "OAuth failed")) ;;
        ret (Reject "state mismatch")
      else
        modify (emit (EvRespond 200 "Login complete. You can close this window.")) ;;
        now <- Date_now ;;
        modify (set_listener (Bound (Some (now + 100)))) ;;
        ret (Resolve (Js.String_of (cb_code u)))
  end.

(** The listener serves inbound requests until the promise settles; with no
    request left the promise never settles. *)
Fixpoint serve (state : string) (inbound : list (Z * option CallbackURL)) : M string :=
  match inbound with
  | [] => fun w => (Hang, w)
  | (dt, rq) :: rest =>
      modify (tick dt) ;;
      s <- on_request state rq ;;
      match s with
      | Unsettled => serve state rest
      | Resolve code => ret code
      | Reject e => throw e
      end
  end.

(** [srv.listen(port, '127.0.0.1', () => openInBrowser(authURL))]: binding a
    port that is still bound raises an [error] event nobody listens to. *)
Definition listen (port : Z) (authURL : AuthURL) : M unit :=
  fun w =>
    if port_busy (listener w) (clock w) then
      (Crash "listen EADDRINUSE: address already in use 127.0.0.1:38573", w)
    else
      (Ret tt, emit (EvOpenBrowser authURL) (emit (EvListen port) (set_listener (Bound None) w))).

Definition random_bytes (n : nat) : M (list byte) :=
  fun w => (Ret (randomBytes E (draws w) n), drawn w).

(** [interactiveLogin(conf, client)] *)
Definition interactiveLogin (conf : ASMeta) (client : Client) : M Token :=
  r32 <- random_bytes 32 ;;
  let pkce := genPKCE r32 in
  r16 <- random_bytes 16 ;;
  let state := b64url r16 in
  match URL_parse E (Js.String_of (authorization_endpoint conf)) with
  | None => throw "Invalid URL"
  | Some _ =>
      let authURL :=
        {| auth_endpoint := Js.String_of (authorization_endpoint conf);
           searchParams :=
             [("response_type", "code");
              ("client_id", client_id client);
              ("redirect_uri", CONFIG.OAUTH_REDIRECT_URI);
              ("scope", CONFIG.OAUTH_SCOPES);
              ("code_challenge_method", "S256");
              ("code_challenge", code_challenge pkce);
              ("state", state)] |} in
      listen 38573 authURL ;;
      inbound <- (fun w => (Ret (browser E (trace w) authURL), w)) ;;
      code <- serve state inbound ;;
      fetchToken conf client
        [("grant_type", "authorization_code");
         ("code", code);
         ("redirect_uri", CONFIG.OAUTH_REDIRECT_URI);
         ("code_verifier", code_verifier pkce)]
  end.

(** ** Token lifecycle *)

(** [tok.expires_at > now + 60]; an undefined [expires_at] compares false. *)
Definition fresh (tok : Token) (now : Z) : bool :=
  match expires_at tok with
  | Some t => now + 60 <? t
  | None => false
  end.

(** [ensureToken(as, client)] *)
Definition ensureToken (a : ASMeta) (client : Client) : M Token :=
  tok <- readJSON TOKENS_FILE ;;
  now <- now_seconds ;;
  match tok with
  | Some t =>
      if fresh t now then ret t
      else if Js.truthy_opt (refresh_token t) then
        try_catch
          (fetchToken a client
             [("grant_type", "refresh_token");
              ("refresh_token", Js.String_of (refresh_token t))])
          (fun e =>
             console_error ("[oauth] refresh failed; interactive login next: " ++ e) ;;
             interactiveLogin a client)
      else interactiveLogin a client
  | None => interactiveLogin a client
  end.

(** ** Proxy core *)

(** [forwardJsonRpcToRemote(json, accessToken)] *)
Definition forwardJsonRpcToRemote (j : json) (accessToken : string) : M json :=
  res <- fetch (remote_mcp E)
           {| url := CONFIG.REMOTE_MCP_URL; method := "POST";
              headers := [("Content-Type", "application/json");
                          ("Authorization", "Bearer " ++ accessToken)];
              body := Text (Json.stringify j) |} ;;
  if status res =? 401 then throw "UNAUTHORIZED"
  else if negb (ok res) then
    throw ("[remote] " ++ Js.string_of_Z (status res) ++ ": " ++ text res)
  else res_json res.

(** [{jsonrpc:'2.0', id: j.id ?? null, error: {code, message}}]; evaluating
    [j.id] throws when [j] is [null]. *)
Definition error_response (j : json) (code : Z) (message : string) : M json :=
  match Json.get_id j with
  | inl e => throw e
  | inr id => ret (Json.rpc_error (Json.nullish id) code message)
  end.

(** [handleRequest(json)] *)
Definition handleRequest (j : json) : M json :=
  a <- discover ;;
  client <- ensureClient a ;;
  tok <- ensureToken a client ;;
  try_catch
    (forwardJsonRpcToRemote j (access_token tok))
    (fun e =>
       if String.eqb e "UNAUTHORIZED" then
         tok <- ensureToken a client ;;
         forwardJsonRpcToRemote j (access_token tok)
       else error_response j (-32001) e).

(** ** STDIO loop *)

Definition parse_error_line : string :=
  Json.stringify (Json.rpc_error JNull (-32700) "Parse error") ++ String Js.nl EmptyString.

(** One line of the loop body, after [buf] has been cut. *)
Definition on_line (line : string) : M unit :=
  if negb (Js.truthy_str line) then ret tt
  else
    match JSON_parse E line with
    | None => stdout_write parse_error_line
    | Some j =>
        try_catch
          (r <- handleRequest j ;;
           stdout_write (Json.stringify r ++ String Js.nl EmptyString))
          (fun e =>
             r <- error_response j (-32000) e ;;
             stdout_write (Json.stringify r ++ String Js.nl EmptyString))
    end.

(** [while ((i = buf.indexOf('\n')) >= 0) { ... }], returning the [buf] left
    when the loop exits; [None] when the iteration bound is reached first. *)
Fixpoint stdin_loop (n : nat) (buf : string) : M (option string) :=
  match Js.indexOf_nl buf with
  | None => ret (Some buf)
  | Some i =>
      match n with
      | O => ret None
      | S n' =>
          let line := Js.trim (Js.slice_to i buf) in
          let buf := Js.slice_from (S i) buf in
          on_line line ;;
          stdin_loop n' buf
      end
  end.

(** The [data] listener of [process.stdin]: [buf] is the module-level
    buffer, which only this listener touches.  A [Throw] here is a rejection
    nobody handles. *)
Definition on_data (buf chunk : string) : M (option string) :=
  let buf := buf ++ chunk in
  stdin_loop (String.length buf) buf.

End Program.

(* ====================================================================== *)
(** * Reference parsers, used to run the program on concrete input *)
(* ====================================================================== *)

(** The theorems below hold for whatever [JSON.parse] and [new URL] the
    runtime provides.  To run the program on concrete lines and issuers,
    this section gives reference parsers for the fragment the examples
    need: JSON with integer numbers and escapes below U+0100, absolute
    [scheme://authority/path] URLs that are already in normal form, and the
    conversion to a number of strings that are decimal integers. *)

Module Ref.

Definition is_json_ws (c : ascii) : bool :=
  let n := nat_of_ascii c in
  Nat.eqb n 32 || Nat.eqb n 9 || Nat.eqb n 10 || Nat.eqb n 13.

Fixpoint skip_ws (s : string) : string :=
  match s with
  | String c r => if is_json_ws c then skip_ws r else s
  | EmptyString => EmptyString
  end.

Fixpoint strip_prefix (p s : string) : option string :=
  match p, s with
  | EmptyString, _ => Some s
  | String a p', String b s' => if Js.ascii_eqb a b then strip_prefix p' s' else None
  | _, _ => None
  end.

Definition digit_val (c : ascii) : option Z :=
  let n := nat_of_ascii c in
  if Nat.leb 48 n && Nat.leb n 57 then Some (Z.of_nat (n - 48)) else None.

Fixpoint digits (acc : Z) (s : string) : Z * string :=
  match s with
  | String c r =>
      match digit_val c with
      | Some d => digits (acc * 10 + d) r
      | None => (acc, s)
      end
  | EmptyString => (acc, s)
  end.

(** A natural number literal: [0] or a digit string without leading zero,
    not followed by a fraction or an exponent. *)
Definition natural (s : string) : option (Z * string) :=
  match s with
  | String c r =>
      match digit_val c with
      | Some d =>
          let '(n, rest) := if d =? 0 then (0, r) else digits d r in
          match rest with
          | String x _ =>
              if Js.ascii_eqb x "."%char || Js.ascii_eqb x "e"%char
                 || Js.ascii_eqb x "E"%char
                 || match digit_val x with Some _ => true | None => false end
              then None else Some (n, rest)
          | EmptyString => Some (n, rest)
          end
      | None => None
      end
  | EmptyString => None
  end.

Definition hex_val (c : ascii) : option nat :=
  let n := nat_of_ascii c in
  if Nat.leb 48 n && Nat.leb n 57 then Some (n - 48)%nat
  else if Nat.leb 97 n && Nat.leb n 102 then Some (n - 87)%nat
  else if Nat.leb 65 n && Nat.leb n 70 then Some (n - 55)%nat
  else None.

(** The characters of a string literal, after the opening quote. *)
Fixpoint chars (s : string) : option (string * string) :=
  match s with
  | EmptyString => None
  | String c r =>
      let n := nat_of_ascii c in
      if Nat.eqb n 34 then Some (EmptyString, r)
      else if Nat.ltb n 32 then None
      else if Nat.eqb n 92 then
        match r with
        | String e r' =>
            let k := nat_of_ascii e in
            let simple (x : nat) :=
              match chars r' with
              | Some (t, rest) => Some (String (ascii_of_nat x) t, rest)
              | None => None
              end in
            if Nat.eqb k 34 then simple 34%nat
            else if Nat.eqb k 92 then simple 92%nat
            else if Nat.eqb k 47 then simple 47%nat
            else if Nat.eqb k 98 then simple 8%nat
            else if Nat.eqb k 102 then simple 12%nat
            else if Nat.eqb k 110 then simple 10%nat
            else if Nat.eqb k 114 then simple 13%nat
            else if Nat.eqb k 116 then simple 9%nat
            else if Nat.eqb k 117 then
              match r' with
              | String h1 (String h2 (String h3 (String h4 r''))) =>
                  match hex_val h1, hex_val h2, hex_val h3, hex_val h4 with
                  | Some O, Some O, Some a, Some b =>
                      match chars r'' with
                      | Some (t, rest) => Some (String (ascii_of_nat (16 * a + b)) t, rest)
                      | None => None
                      end
                  | _, _, _, _ => None
                  end
              | _ => None
              end
            else None
        | EmptyString => None
        end
      else
        match chars r with
        | Some (t, rest) => Some (String c t, rest)
        | None => None
        end
  end.

(** Assignment to a property: a repeated key keeps its place. *)
Fixpoint set_prop (k : string) (v : json) (m : list (string * json)) : list (string * json) :=
  match m with
  | [] => [(k, v)]
  | (k', v') :: r => if String.eqb k k' then (k, v) :: r else (k', v') :: set_prop k v r
  end.

Fixpoint value (n : nat) (s : string) : option (json * string) :=
  match n with
  | O => None
  | S n' =>
      match skip_ws s with
      | EmptyString => None
      | String c r =>
          let k := nat_of_ascii c in
          if Nat.eqb k 34 then
            match chars r with
            | Some (t, rest) => Some (JStr t, rest)
            | None => None
            end
          else if Nat.eqb k 91 then
            match skip_ws r with
            | String x r' =>
                if Nat.eqb (nat_of_ascii x) 93 then Some (JArr [], r')
                else elements n' [] r
            | EmptyString => None
            end
          else if Nat.eqb k 123 then
            match skip_ws r with
            | String x r' =>
                if Nat.eqb (nat_of_ascii x) 125 then Some (JObj [], r')
                else members n' [] r
            | EmptyString => None
            end
          else if Nat.eqb k 45 then
            match natural r with
            | Some (z, rest) => Some (JNum (- z), rest)
            | None => None
            end
          else
            match strip_prefix "null" (String c r) with
            | Some rest => Some (JNull, rest)
            | None =>
            match strip_prefix "true" (String c r) with
            | Some rest => Some (JBool true, rest)
            | None =>
            match strip_prefix "false" (String c r) with
            | Some rest => Some (JBool false, rest)
            | None =>
            match natural (String c r) with
            | Some (z, rest) => Some (JNum z, rest)
            | None => None
            end end end end
      end
  end
with elements (n : nat) (acc : list json) (s : string) : option (json * string) :=
  match n with
  | O => None
  | S n' =>
      match value n' s with
      | Some (v, rest) =>
          match skip_ws rest with
          | String x r =>
              if Nat.eqb (nat_of_ascii x) 44 then elements n' (acc ++ [v])%list r
              else if Nat.eqb (nat_of_ascii x) 93 then Some (JArr (acc ++ [v])%list, r)
              else None
          | EmptyString => None
          end
      | None => None
      end
  end
with members (n : nat) (acc : list (string * json)) (s : string) : option (json * string) :=
  match n with
  | O => None
  | S n' =>
      match skip_ws s with
      | String q r =>
          if Nat.eqb (nat_of_ascii q) 34 then
            match chars r with
            | Some (k, rest) =>
                match skip_ws rest with
                | String x r1 =>
                    if Nat.eqb (nat_of_ascii x) 58 then
                      match value n' r1 with
                      | Some (v, rest') =>
                          match skip_ws rest' with
                          | String y r2 =>
                              if Nat.eqb (nat_of_ascii y) 44 then members n' (set_prop k v acc) r2
                              else if Nat.eqb (nat_of_ascii y) 125 then
                                Some (JObj (set_prop k v acc), r2)
                              else None
                          | EmptyString => None
                          end
                      | None => None
                      end
                    else None
                | EmptyString => None
                end
            | None => None
            end
          else None
      | EmptyString => None
      end
  end.

(** [JSON.parse(s)] on the fragment; [None] is a SyntaxError. *)
Definition JSON_parse (s : string) : option json :=
  match value (S (String.length s)) s with
  | Some (v, rest) =>
      match skip_ws rest with
      | EmptyString => Some v
      | _ => None
      end
  | None => None
  end.

(** Splits [s] at the first character satisfying [p]. *)
Fixpoint span_until (p : ascii -> bool) (s : string) : string * string :=
  match s with
  | EmptyString => (EmptyString, EmptyString)
  | String c r =>
      if p c then (EmptyString, s)
      else let '(a, b) := span_until p r in (String c a, b)
  end.

Definition is_alpha (c : ascii) : bool :=
  let n := nat_of_ascii c in
  (Nat.leb 97 n && Nat.leb n 122).

Fixpoint all_chars (p : ascii -> bool) (s : string) : bool :=
  match s with
  | EmptyString => true
  | String c r => p c && all_chars p r
  end.

(** [new URL(s)] on the fragment; [None] is a TypeError. *)
Definition URL_parse (s : string) : option URL :=
  let '(scheme, rest) := span_until (Js.ascii_eqb ":"%char) s in
  if negb (Js.truthy_str scheme) || negb (all_chars is_alpha scheme) then None
  else
    match strip_prefix "://" rest with
    | None => None
    | Some rest =>
        let stop c := Js.ascii_eqb c "/"%char || Js.ascii_eqb c "?"%char
                      || Js.ascii_eqb c "#"%char in
        let '(authority, rest) := span_until stop rest in
        if negb (Js.truthy_str authority) then None
        else
          let '(path, _) :=
            span_until (fun c => Js.ascii_eqb c "?"%char || Js.ascii_eqb c "#"%char) rest in
          Some {| protocol := scheme ++ ":";
                  host := authority;
                  pathname := if Js.truthy_str path then path else "/" |}
    end.

(** A non-empty string of decimal digits. *)
Definition all_digits (s : string) : option Z :=
  match s with
  | EmptyString => None
  | _ => match digits 0 s with
         | (n, EmptyString) => Some (Js.double n)
         | _ => None
         end
  end.

(** The conversion of a string to a number, for strings that are empty or
    a signed decimal integer, between white space. *)
Definition ToNumber (s : string) : option Z :=
  match Js.trim s with
  | EmptyString => Some 0
  | String c r =>
      if Js.ascii_eqb c "-"%char then option_map Z.opp (all_digits r)
      else if Js.ascii_eqb c "+"%char then all_digits r
      else all_digits (String c r)
  end.

End Ref.

(** A literal written with ['] where the text has a double quote. *)
Definition dquoted (s : string) : string := Js.replace_all "'"%char (ascii_of_nat 34) s.

(* ====================================================================== *)
(** * Concrete scenarios *)
(* ====================================================================== *)

Module Scenario.

Definition unreachable {A} : list Event -> Request -> Z * Reply A :=
  fun _ _ => (0, Rejected "fetch failed").

Definition line_of (v : json) : string := Json.stringify v ++ String Js.nl EmptyString.

Definition ping : json :=
  JObj [("jsonrpc", JStr "2.0"); ("id", JNum 1); ("method", JStr "ping")].

Definition pong : json :=
  JObj [("jsonrpc", JStr "2.0"); ("id", JNum 1); ("result", JObj [])].

(** An authorization server that does not offer dynamic registration. *)
Definition idp (registration : option string) : ASMeta :=
  {| issuer := Some "https://idp.example.com";
     authorization_endpoint := Some "https://idp.example.com/authorize";
     token_endpoint := Some "https://idp.example.com/token";
     registration_endpoint := registration |}.

Definition app : Client :=
  {| client_issuer := Some "https://idp.example.com";
     client_id := "app-1";
     redirect_uris := [CONFIG.OAUTH_REDIRECT_URI] |}.

Definition token (access : string) (refresh : option string) (lifetime : option Z)
  (expiry : option Z) : Token :=
  {| access_token := access; refresh_token := refresh;
     expires_in := option_map JNum lifetime; expires_at := expiry |}.

Definition http {A} (code : Z) (page : string) (parsed : string + A) : Reply A :=
  Fulfilled {| status := code; text := page; json_body := parsed |}.

Definition is_forward (e : Event) : bool :=
  match e with
  | EvFetch r => String.eqb (url r) CONFIG.REMOTE_MCP_URL
  | _ => false
  end.

Definition is_token_request (e : Event) : bool :=
  match e with
  | EvFetch r => String.eqb (url r) "https://idp.example.com/token"
  | _ => false
  end.

(** A remote endpoint that answers 401 to the first forward it sees and
    200 with [pong] to every later one. *)
Definition remote_401_then_200 : list Event -> Request -> Z * Reply json :=
  fun history _ =>
    if existsb is_forward history then (5, http 200 "pong" (inr pong))
    else (5, http 401 "token rejected" (inl "Unexpected token"))%string.

(** A token endpoint that grants [answer] to every request. *)
Definition granting (answer : Token) : list Event -> Request -> Z * Reply Token :=
  fun _ _ => (7, http 200 "token" (inr answer)).

(** A token endpoint that refuses every request. *)
Definition refusing : list Event -> Request -> Z * Reply Token :=
  fun _ _ => (7, http 400 "invalid_grant" (inl "Unexpected token")).

Definition env (tokens : list Event -> Request -> Z * Reply Token)
  (remote : list Event -> Request -> Z * Reply json)
  (callbacks : list (Z * option CallbackURL)) : Env :=
  {| JSON_parse := Ref.JSON_parse;
     URL_parse := Ref.URL_parse;
     ToNumber := Ref.ToNumber;
     randomBytes := fun k n => repeat (Buf.byte_of_Z (Z.of_nat k)) n;
     resource_server := unreachable;
     metadata_server := unreachable;
     registration_server := unreachable;
     token_server := tokens;
     remote_mcp := remote;
     browser := fun _ _ => callbacks |}.

Definition files (t : option Token) (d : option ASMeta) (c : option Client) : Files :=
  {| tokens_json := t; as_metadata_json := d; client_metadata_json := c |}.

(** A process that has just started, at epoch second 2000000000. *)
Definition boot (f : Files) : World :=
  {| fs := f; clock := 2000000000000; trace := []; stdout := [];
     listener := Free; draws := O |}.

Definition forward_request (access : string) (payload : json) : Request :=
  {| url := CONFIG.REMOTE_MCP_URL; method := "POST";
     headers := [("Content-Type", "application/json");
                 ("Authorization", "Bearer " ++ access)];
     body := Text (Json.stringify payload) |}.

End Scenario.

(* ====================================================================== *)
(** * Vocabulary of the specification *)
(* ====================================================================== *)

Definition well_known : string := "/.well-known/oauth-authorization-server".

(** The issuer's path as the program inserts it: without trailing slashes. *)
Definition issuer_path (iu : URL) : string :=
  Js.drop_trailing (Js.ascii_eqb "/"%char) (pathname iu).

Definition token_request (a : ASMeta) (client : Client) (params : list (string * string))
  : Request :=
  {| url := Js.String_of (token_endpoint a); method := "POST";
     headers := [("Content-Type", "application/x-www-form-urlencoded")];
     body := Form (params ++ [("client_id", client_id client)]) |}.

(** The response gives its lifetime as a JSON number, or gives none. *)
Definition numeric_lifetime (tok : Token) : bool :=
  match expires_in tok with
  | None | Some (JNum _) => true
  | Some _ => false
  end.

(** The declared lifetime of such a response, 3600 when it is absent or
    zero. *)
Definition declared_lifetime (tok : Token) : Z :=
  match expires_in tok with
  | Some (JNum n) => if n =? 0 then 3600 else n
  | _ => 3600
  end.

(** The lifetime of such a response as the specification words it: the
    declared [expires_in], 3600 when it is absent. *)
Definition lifetime_as_specified (tok : Token) : Z :=
  match expires_in tok with
  | Some (JNum n) => n
  | _ => 3600
  end.

(** An integer in the range where doubles are the integers, so that sums
    and differences are exact. *)
Definition exact_integer (z : Z) : Prop := Z.abs z <= 2 ^ 53.

(** A cached client registration matches the issuer of the metadata. *)
Definition client_matches (cached : option Client) (a : ASMeta) : bool :=
  match cached with
  | Some c => strict_eq (client_issuer c) (issuer a)
  | None => false
  end.

Definition no_registration_endpoint : string :=
  "[oidc] no registration endpoint: enable DCR or pre-provision a client".

(** The request that [ensureToken] sends to refresh with token [r]. *)
Definition refresh_request (a : ASMeta) (client : Client) (r : string) : Request :=
  token_request a client [("grant_type", "refresh_token"); ("refresh_token", r)].

Definition refresh_failed (e : string) : Event :=
  EvLog ("[oauth] refresh failed; interactive login next: " ++ e).

(** A computation only ever appends to the trace. *)
Definition grows {A : Type} (m : M A) : Prop :=
  forall w, exists l, trace (snd (m w)) = (trace w ++ l)%list.

(** The line written for a response. *)
Definition json_line (v : json) : string := Json.stringify v ++ String Js.nl EmptyString.

(* ====================================================================== *)
(** * Vocabulary for the properties of the remaining code *)
(* ====================================================================== *)

(** A computation leaves one component of the world as it found it. *)
Definition keeps {A X : Type} (component : World -> X) (m : M A) : Prop :=
  forall w, component (snd (m w)) = component w.

(** The complete lines of a buffer, and what follows the last newline. *)
Fixpoint split_lines (line s : string) : list string * string :=
  match s with
  | EmptyString => ([], line)
  | String c r =>
      if Js.ascii_eqb c Js.nl then
        let '(ls, rest) := split_lines EmptyString r in (line :: ls, rest)
      else split_lines (line ++ String c EmptyString) r
  end.

Definition blank (line : string) : bool := negb (Js.truthy_str (Js.trim line)).

(** A string that is one line: a body without newline, then a newline. *)
Definition one_line (s : string) : Prop :=
  exists body, s = (body ++ String Js.nl EmptyString)%string /\ Js.indexOf_nl body = None.

(** The characters of the URL-safe base64 alphabet. *)
Definition url_safe (c : ascii) : bool :=
  let n := nat_of_ascii c in
  (Nat.leb 65 n && Nat.leb n 90) || (Nat.leb 97 n && Nat.leb n 122)
  || (Nat.leb 48 n && Nat.leb n 57) || Nat.eqb n 45 || Nat.eqb n 95.

Fixpoint all_of (p : ascii -> bool) (s : string) : bool :=
  match s with
  | EmptyString => true
  | String c r => p c && all_of p r
  end.

(** The request that [forwardJsonRpcToRemote] sends. *)
Definition forward_request (j : json) (accessToken : string) : Request :=
  {| url := CONFIG.REMOTE_MCP_URL; method := "POST";
     headers := [("Content-Type", "application/json");
                 ("Authorization", "Bearer " ++ accessToken)];
     body := Text (Json.stringify j) |}.

(** Every event a computation adds to the trace satisfies [P]. *)
Definition emits {A : Type} (P : Event -> Prop) (m : M A) : Prop :=
  forall w, exists l, trace (snd (m w)) = (trace w ++ l)%list /\ Forall P l.

(** A request that carries an [Authorization] header. *)
Definition carries_bearer (e : Event) : bool :=
  match e with
  | EvFetch r => existsb (fun h => String.eqb (fst h) "Authorization") (headers r)
  | _ => false
  end.

(** At most [n] of the events carry a bearer token, and each of those is a
    forward of [j] to the remote endpoint. *)
Definition forwards_at_most (n : nat) (j : json) (l : list Event) : Prop :=
  (List.length (filter carries_bearer l) <= n)%nat /\
  Forall (fun e => carries_bearer e = true ->
                   exists accessToken, e = EvFetch (forward_request j accessToken)) l.

(** The message [forwardJsonRpcToRemote] throws for a non-success response. *)
Definition remote_error (r : Response json) : string :=
  if status r =? 401 then "UNAUTHORIZED"
  else "[remote] " ++ Js.string_of_Z (status r) ++ ": " ++ text r.

(** The world right after a forward with token [t] has been answered. *)
Definition forwarded (j : json) (t : string) (dt : Z) (w : World) : World :=
  tick dt (emit (EvFetch (forward_request j t)) w).

(* ====================================================================== *)
(** * The earlier variant of the relay (OIDC discovery from the remote's root) *)
(* ====================================================================== *)

Module Legacy.

Definition REMOTE_MCP_URL : string := "https://devmcp.temha.io/".

(** [`${remote.protocol}//${remote.host}`] of [REMOTE_MCP_URL]. *)
Definition OIDC_ISSUER : string := "https://devmcp.temha.io".

Section Program.

Variable E : Env.

(** [discover()] after a cache miss.  The discovery file of this variant is
    [oidc-discovery.json]; it takes the place of [as-metadata.json]. *)
Definition discover_remote : M ASMeta :=
  let wellKnown := OIDC_ISSUER ++ "/.well-known/openid-configuration" in
  res <- fetch (metadata_server E) (GET wellKnown) ;;
  if negb (ok res) then
    throw ("[oidc] discovery failed " ++ Js.string_of_Z (status res))
  else
    conf <- res_json res ;;
    if negb (Js.truthy_opt (authorization_endpoint conf))
       || negb (Js.truthy_opt (token_endpoint conf))
    then throw "[oidc] invalid discovery doc"
    else
      let conf := set_issuer OIDC_ISSUER conf in
      writeJSON DISCOVERY_FILE conf ;; ret conf.

(** [discover()] *)
Definition discover : M ASMeta :=
  cached <- readJSON DISCOVERY_FILE ;;
  match cached with
  | Some c =>
      if strict_eq (issuer c) (Some OIDC_ISSUER) then ret c else discover_remote
  | None => discover_remote
  end.

End Program.

End Legacy.

(* ====================================================================== *)
(** * A complete environment, to run the properties on *)
(* ====================================================================== *)

Module Demo.

Definition tenant : string := "https://idp.example.com/tenants/acme".

Definition prm : PRM :=
  {| prm_authorization_servers := Some [tenant];
     prm_authorization_server := None;
     prm_issuer := None |}.

(** Metadata as served: without an issuer of its own. *)
Definition metadata : ASMeta :=
  {| issuer := None;
     authorization_endpoint := Some "https://idp.example.com/tenants/acme/authorize";
     token_endpoint := Some "https://idp.example.com/tenants/acme/token";
     registration_endpoint := Some "https://idp.example.com/tenants/acme/register" |}.

Definition registration : Registration :=
  {| reg_client_id := "app-2"; reg_redirect_uris := None |}.

Definition client : Client :=
  {| client_issuer := Some tenant; client_id := "app-2";
     redirect_uris := [CONFIG.OAUTH_REDIRECT_URI] |}.

Definition answering {A : Type} (a : A) : list Event -> Request -> Z * Reply A :=
  fun _ _ => (3, Scenario.http 200 "ok" (inr a)).

(** A remote endpoint that answers every forward with [code]. *)
Definition remote_status (code : Z) : list Event -> Request -> Z * Reply json :=
  fun _ _ => (5, Scenario.http code "down" (inr Scenario.pong)).

Definition env (registrar : list Event -> Request -> Z * Reply Registration)
  (tokens : list Event -> Request -> Z * Reply Token)
  (remote : list Event -> Request -> Z * Reply json)
  (callbacks : list (Z * option CallbackURL)) : Env :=
  {| JSON_parse := Ref.JSON_parse;
     URL_parse := Ref.URL_parse;
     ToNumber := Ref.ToNumber;
     randomBytes := fun k n => repeat (Buf.byte_of_Z (Z.of_nat k)) n;
     resource_server := answering prm;
     metadata_server := answering metadata;
     registration_server := registrar;
     token_server := tokens;
     remote_mcp := remote;
     browser := fun _ _ => callbacks |}.

(** The callback of a browser that returns the generated state. *)
Definition genuine : CallbackURL :=
  {| cb_pathname := "/callback"; cb_code := Some "abc";
     cb_state := Some "AQEBAQEBAQEBAQEBAQEBAQ" |}.

Definition favicon : CallbackURL :=
  {| cb_pathname := "/favicon.ico"; cb_code := None; cb_state := None |}.

Definition cached_token : Token :=
  Scenario.token "cached" (Some "R1") (Some 3600) (Some 2000003570).

(** A store with everything cached and a token far from expiry. *)
Definition warm : World :=
  Scenario.boot (Scenario.files (Some cached_token) (Some (Scenario.idp None))
                   (Some Scenario.app)).

Definition cold : World := Scenario.boot (Scenario.files None None None).

(** A token-endpoint answer whose [expires_in] is the JSON value [v], or is
    missing. *)
Definition answer (v : option json) : Token :=
  {| access_token := "new"; refresh_token := Some "R2";
     expires_in := v; expires_at := None |}.

(** A token endpoint that grants [tok] after [dt] milliseconds. *)
Definition granting_after (dt : Z) (tok : Token) : list Event -> Request -> Z * Reply Token :=
  fun _ _ => (dt, Scenario.http 200 "token" (inr tok)).

(** A refresh exchange in a process that has just started, answered with
    [tok] after [dt] milliseconds. *)
Definition exchange (dt : Z) (tok : Token) : Outcome Token * World :=
  fetchToken (env Scenario.unreachable (granting_after dt tok) Scenario.unreachable [])
    (Scenario.idp None) Scenario.app
    [("grant_type", "refresh_token"); ("refresh_token", "R1")] cold.

End Demo.

(* ====================================================================== *)
(** * Properties *)
(* ====================================================================== *)

Section Base64Proof.

Lemma forall_range (P : Z -> bool) (n : nat) :
  forallb P (map Z.of_nat (seq 0 n)) = true ->
  forall z, 0 <= z < Z.of_nat n -> P z = true.
Proof.
  intros H z Hz.
  rewrite forallb_forall in H. apply H.
  apply in_map_iff. exists (Z.to_nat z). split; [lia|].
  apply in_seq. lia.
Qed.

Lemma byte_val_range (b : byte) : 0 <= Buf.byte_val b < 256.
Proof.
  unfold Buf.byte_val. pose proof (Byte.to_N_bounded b). lia.
Qed.

Lemma lor_hi2_lo4 x y :
  0 <= x < 4 -> 0 <= y < 16 -> Z.lor (Z.shiftl x 4) y = x * 16 + y.
Proof.
  intros Hx Hy.
  pose (P := fun x => forallb (fun y => Z.lor (Z.shiftl x 4) y =? x * 16 + y)
                        (map Z.of_nat (seq 0 16))).
  assert (HP : P x = true) by (apply (forall_range P 4); [vm_compute; reflexivity | lia]).
  unfold P in HP.
  apply Z.eqb_eq.
  apply (forall_range (fun y => Z.lor (Z.shiftl x 4) y =? x * 16 + y) 16 HP). lia.
Qed.

Lemma lor_hi4_lo2 x y :
  0 <= x < 16 -> 0 <= y < 4 -> Z.lor (Z.shiftl x 2) y = x * 4 + y.
Proof.
  intros Hx Hy.
  pose (P := fun x => forallb (fun y => Z.lor (Z.shiftl x 2) y =? x * 4 + y)
                        (map Z.of_nat (seq 0 4))).
  assert (HP : P x = true) by (apply (forall_range P 16); [vm_compute; reflexivity | lia]).
  unfold P in HP.
  apply Z.eqb_eq.
  apply (forall_range (fun y => Z.lor (Z.shiftl x 2) y =? x * 4 + y) 4 HP). lia.
Qed.

End Base64Proof.

Section Base64Digits.

Variables a b c : Z.
Hypothesis Ha : 0 <= a < 256.
Hypothesis Hb : 0 <= b < 256.
Hypothesis Hc : 0 <= c < 256.

Let n := a * 65536 + b * 256 + c.

Lemma land3 x : Z.land x 3 = x mod 4.
Proof. change 3 with (Z.ones 2). rewrite Z.land_ones by lia. reflexivity. Qed.

Lemma land15 x : Z.land x 15 = x mod 16.
Proof. change 15 with (Z.ones 4). rewrite Z.land_ones by lia. reflexivity. Qed.

Lemma land63 x : Z.land x 63 = x mod 64.
Proof. change 63 with (Z.ones 6). rewrite Z.land_ones by lia. reflexivity. Qed.

Lemma digit0_eq : Z.shiftr a 2 = n / 262144.
Proof.
  rewrite Z.shiftr_div_pow2 by lia. change (2 ^ 2) with 4. subst n.
  Z.div_mod_to_equations. lia.
Qed.

Lemma digit1_eq :
  Z.lor (Z.shiftl (Z.land a 3) 4) (Z.shiftr b 4) = (n / 4096) mod 64.
Proof.
  rewrite land3, (Z.shiftr_div_pow2 b 4) by lia. change (2 ^ 4) with 16.
  rewrite lor_hi2_lo4.
  - subst n. Z.div_mod_to_equations. lia.
  - Z.div_mod_to_equations. lia.
  - Z.div_mod_to_equations. lia.
Qed.

Lemma digit2_eq :
  Z.lor (Z.shiftl (Z.land b 15) 2) (Z.shiftr c 6) = (n / 64) mod 64.
Proof.
  rewrite land15, (Z.shiftr_div_pow2 c 6) by lia. change (2 ^ 6) with 64.
  rewrite lor_hi4_lo2.
  - subst n. Z.div_mod_to_equations. lia.
  - Z.div_mod_to_equations. lia.
  - Z.div_mod_to_equations. lia.
Qed.

Lemma digit3_eq : Z.land c 63 = n mod 64.
Proof. rewrite land63. subst n. Z.div_mod_to_equations. lia. Qed.

End Base64Digits.

Section B64Url.

Lemma replace_cons c s :
  Js.replace_all "/"%char "_"%char (Js.replace_all "+"%char "-"%char (String c s)) =
  String (url_char c)
    (Js.replace_all "/"%char "_"%char (Js.replace_all "+"%char "-"%char s)).
Proof. reflexivity. Qed.

Lemma drop_trailing_keep p c s :
  p c = false -> Js.drop_trailing p (String c s) = String c (Js.drop_trailing p s).
Proof.
  intros H. simpl. rewrite H. destruct (Js.drop_trailing p s); reflexivity.
Qed.

Lemma digit_url i :
  0 <= i < 64 ->
  url_char (Buf.digit Buf.std_alphabet i) = Buf.digit Buf.url_alphabet i /\
  is_pad (Buf.digit Buf.url_alphabet i) = false.
Proof.
  intros Hi.
  pose (P := fun i =>
    Js.ascii_eqb (url_char (Buf.digit Buf.std_alphabet i)) (Buf.digit Buf.url_alphabet i)
    && negb (is_pad (Buf.digit Buf.url_alphabet i))).
  assert (HP : P i = true) by (apply (forall_range P 64); [vm_compute; reflexivity | lia]).
  unfold P in HP. apply andb_true_iff in HP. destruct HP as [H1 H2].
  split.
  - apply Ascii.eqb_eq. exact H1.
  - apply negb_true_iff. exact H2.
Qed.

Lemma list_ind3 (A : Type) (P : list A -> Prop) :
  P [] -> (forall a, P [a]) -> (forall a b, P [a; b]) ->
  (forall a b c r, P r -> P (a :: b :: c :: r)) ->
  forall l, P l.
Proof.
  intros H0 H1 H2 H3.
  fix IH 1. intros [|a [|b [|c r]]].
  - exact H0.
  - apply H1.
  - apply H2.
  - apply H3. apply IH.
Qed.

Ltac digit_step :=
  rewrite replace_cons;
  match goal with
  | |- context [url_char (Buf.digit Buf.std_alphabet ?i)] =>
      let H := fresh in
      let H1 := fresh in
      let H2 := fresh in
      assert (H : 0 <= i < 64) by (Z.div_mod_to_equations; lia);
      destruct (digit_url i H) as [H1 H2];
      rewrite H1, (drop_trailing_keep _ _ _ H2); clear H H1 H2
  end.

Lemma b64url_base64url_nopad (buf : list byte) : b64url buf = Buf.base64url_nopad buf.
Proof.
  unfold b64url. fold is_pad.
  induction buf as [|a|a b|a b c r IH] using list_ind3.
  - reflexivity.
  - cbn [Buf.base64 Buf.base64url_nopad].
    pose proof (byte_val_range a) as Ha.
    rewrite (digit0_eq (Buf.byte_val a) 0 0) by lia.
    replace (Z.shiftl (Z.land (Buf.byte_val a) 3) 4)
      with (Z.lor (Z.shiftl (Z.land (Buf.byte_val a) 3) 4) (Z.shiftr 0 4))
      by apply Z.lor_0_r.
    rewrite (digit1_eq (Buf.byte_val a) 0 0) by lia.
    rewrite !Z.add_0_r.
    do 2 digit_step. reflexivity.
  - cbn [Buf.base64 Buf.base64url_nopad].
    pose proof (byte_val_range a) as Ha. pose proof (byte_val_range b) as Hb.
    rewrite (digit0_eq (Buf.byte_val a) (Buf.byte_val b) 0) by lia.
    rewrite (digit1_eq (Buf.byte_val a) (Buf.byte_val b) 0) by lia.
    replace (Z.shiftl (Z.land (Buf.byte_val b) 15) 2)
      with (Z.lor (Z.shiftl (Z.land (Buf.byte_val b) 15) 2) (Z.shiftr 0 6))
      by apply Z.lor_0_r.
    rewrite (digit2_eq (Buf.byte_val a) (Buf.byte_val b) 0) by lia.
    rewrite !Z.add_0_r.
    do 3 digit_step. reflexivity.
  - cbn [Buf.base64 Buf.base64url_nopad].
    pose proof (byte_val_range a) as Ha. pose proof (byte_val_range b) as Hb.
    pose proof (byte_val_range c) as Hc.
    rewrite (digit0_eq (Buf.byte_val a) (Buf.byte_val b) (Buf.byte_val c)) by lia.
    rewrite (digit1_eq (Buf.byte_val a) (Buf.byte_val b) (Buf.byte_val c)) by lia.
    rewrite (digit2_eq (Buf.byte_val a) (Buf.byte_val b) (Buf.byte_val c)) by lia.
    rewrite (digit3_eq (Buf.byte_val a) (Buf.byte_val b) (Buf.byte_val c)) by lia.
    do 4 digit_step. rewrite IH. reflexivity.
Qed.

End B64Url.

(** C5. The code challenge of every generated PKCE pair is the URL-safe,
    unpadded base64 encoding (the reference encoder [Buf.base64url_nopad])
    of the SHA-256 digest of the code verifier. *)
Theorem pkce_challenge_is_base64url_of_sha256 (random32 : list byte) :
  code_challenge (genPKCE random32) =
  Buf.base64url_nopad (Sha256.digest (Buf.utf8 (code_verifier (genPKCE random32)))).
Proof.
  unfold genPKCE. cbn [code_challenge code_verifier].
  apply b64url_base64url_nopad.
Qed.

(** The test vector of RFC 7636, appendix B. *)
Example pkce_rfc7636_vector :
  genPKCE rfc7636_octets =
  {| code_verifier := "dBjftJeZ4CVP-mB92K27uhbUJU1p1r_wW1gFWFOEjXk";
     code_challenge := "E9Melhoa2OwvFrEMTJguCHaoeK1t8URWbuGJSstw-cM" |}.
Proof. vm_compute. reflexivity. Qed.

(** The digest of FIPS 180-4's one-block message. *)
Example sha256_abc :
  map Buf.byte_val (firstn 4 (Sha256.digest (Buf.utf8 "abc"))) = [0xba; 0x78; 0x16; 0xbf].
Proof. vm_compute. reflexivity. Qed.

(* ====================================================================== *)
(** * Discovery: the metadata URL of an issuer *)
(* ====================================================================== *)

Lemma append_assoc (a b c : string) : ((a ++ b) ++ c)%string = (a ++ (b ++ c))%string.
Proof. induction a as [|x a IH]; [reflexivity|]. cbn. rewrite IH. reflexivity. Qed.

Lemma drop_trailing_not_slash (s : string) :
  String.eqb (Js.drop_trailing (Js.ascii_eqb "/"%char) s) "/" = false.
Proof.
  induction s as [|c r IH]; [reflexivity|].
  cbn [Js.drop_trailing].
  destruct (Js.drop_trailing (Js.ascii_eqb "/"%char) r) as [|c' r'].
  - destruct (Js.ascii_eqb "/"%char c) eqn:Hc; [reflexivity|].
    cbn [String.eqb].
    destruct (Ascii.eqb_spec c "/"%char) as [->|]; [discriminate Hc | reflexivity].
  - cbn [String.eqb]. destruct (Ascii.eqb c "/"%char); reflexivity.
Qed.

(** C6. For an issuer whose path is not the root, the metadata URL is the
    issuer's origin, then the well-known segment, then the issuer's path;
    for an issuer without a path, it is the origin followed by the
    well-known segment. *)
Theorem asWellKnownFromIssuer_inserts_before_path (E : Env) (iss : string) (iu : URL) :
  URL_parse E iss = Some iu ->
  (issuer_path iu <> EmptyString ->
   asWellKnownFromIssuer E iss =
   inr (protocol iu ++ "//" ++ host iu ++ well_known ++ issuer_path iu)) /\
  (issuer_path iu = EmptyString ->
   asWellKnownFromIssuer E iss = inr (protocol iu ++ "//" ++ host iu ++ well_known)).
Proof.
  intros Hp. unfold asWellKnownFromIssuer, issuer_path, well_known. rewrite Hp.
  rewrite drop_trailing_not_slash.
  destruct (Js.drop_trailing (Js.ascii_eqb "/"%char) (pathname iu)) as [|c r].
  - split; [intros H; contradiction H; reflexivity|].
    intros _. cbn [Js.truthy_str andb]. rewrite !append_assoc. reflexivity.
  - split; [|discriminate].
    intros _. cbn [Js.truthy_str andb negb].
    rewrite !append_assoc. reflexivity.
Qed.

(** The two issuers of the specification, through the reference URL parser. *)
Lemma asWellKnownFromIssuer_examples :
  asWellKnownFromIssuer (Scenario.env Scenario.refusing Scenario.unreachable [])
    "https://idp.example.com/tenants/acme" =
  inr "https://idp.example.com/.well-known/oauth-authorization-server/tenants/acme" /\
  asWellKnownFromIssuer (Scenario.env Scenario.refusing Scenario.unreachable [])
    "https://idp.example.com" =
  inr "https://idp.example.com/.well-known/oauth-authorization-server".
Proof.
  split.
  - destruct (asWellKnownFromIssuer_inserts_before_path
                (Scenario.env Scenario.refusing Scenario.unreachable [])
                "https://idp.example.com/tenants/acme"
                {| protocol := "https:"; host := "idp.example.com";
                   pathname := "/tenants/acme" |} eq_refl) as [H _].
    rewrite H; [reflexivity | discriminate].
  - destruct (asWellKnownFromIssuer_inserts_before_path
                (Scenario.env Scenario.refusing Scenario.unreachable [])
                "https://idp.example.com"
                {| protocol := "https:"; host := "idp.example.com";
                   pathname := "/" |} eq_refl) as [_ H].
    rewrite H; reflexivity.
Defined.

(* ====================================================================== *)
(** * Token lifecycle *)
(* ====================================================================== *)

Lemma ensureToken_fast_path_eq (E : Env) (a : ASMeta) (client : Client) (w : World)
  (tok : Token) (t : Z) :
  tokens_json (fs w) = Some tok ->
  expires_at tok = Some t ->
  clock w / 1000 + 60 < t ->
  ensureToken E a client w = (Ret tok, w).
Proof.
  intros Hf Ht Hlt.
  unfold ensureToken, bind, readJSON, now_seconds, Date_now, ret, fresh. cbn.
  rewrite Hf, Ht.
  destruct (Z.ltb_spec (clock w / 1000 + 60) t); [reflexivity | lia].
Qed.

(** C3. With a cached token record whose [expires_at] is more than 60
    seconds after the current time, [ensureToken] returns that record and
    leaves the world as it found it: nothing is fetched, no listener is
    started, no browser is opened, no file is written. *)
Theorem ensureToken_fast_path (E : Env) (a : ASMeta) (client : Client) (w : World)
  (tok : Token) (t : Z) :
  tokens_json (fs w) = Some tok ->
  expires_at tok = Some t ->
  clock w / 1000 + 60 < t ->
  ensureToken E a client w = (Ret tok, w) /\
  trace (snd (ensureToken E a client w)) = trace w /\
  fs (snd (ensureToken E a client w)) = fs w.
Proof.
  intros Hf Ht Hlt.
  rewrite (ensureToken_fast_path_eq E a client w tok t Hf Ht Hlt).
  repeat split.
Qed.

Lemma ensureToken_fast_path_witness :
  let E := Scenario.env (Scenario.granting (Scenario.token "new" None None None))
             Scenario.unreachable [] in
  let tok := Scenario.token "cached" (Some "R1") (Some 3600) (Some 2000000061) in
  let w := Scenario.boot (Scenario.files (Some tok) None None) in
  clock w / 1000 + 60 < 2000000061 /\
  ensureToken E (Scenario.idp None) Scenario.app w = (Ret tok, w) /\
  trace (snd (ensureToken E (Scenario.idp None) Scenario.app w)) = trace w /\
  fs (snd (ensureToken E (Scenario.idp None) Scenario.app w)) = fs w.
Proof.
  intros E tok w.
  assert (H : clock w / 1000 + 60 < 2000000061) by (vm_compute; reflexivity).
  split; [exact H|].
  exact (ensureToken_fast_path E (Scenario.idp None) Scenario.app w tok 2000000061
           eq_refl eq_refl H).
Defined.

(* ====================================================================== *)
(** * Token exchange *)
(* ====================================================================== *)

Lemma double_exact (z : Z) : exact_integer z -> Js.double z = z.
Proof.
  unfold exact_integer, Js.double. intros H.
  destruct (Z.leb_spec (Z.abs z) (2 ^ 53)); [reflexivity | lia].
Qed.

(** The stamp of a numeric lifetime, where the arithmetic is exact. *)
Lemma stamp_numeric (E : Env) (now : Z) (tok : Token) :
  numeric_lifetime tok = true ->
  exact_integer (now + declared_lifetime tok) ->
  exact_integer (now + declared_lifetime tok - 30) ->
  stamp E now tok = Some (now + declared_lifetime tok - 30).
Proof.
  unfold numeric_lifetime, declared_lifetime, stamp, lifetime.
  destruct (expires_in tok) as [[ |b|n|s|l|m]|]; try discriminate; intros _.
  - cbn [Json.truthy]. unfold Js.truthy_num.
    destruct (n =? 0); cbn [negb js_plus js_minus]; unfold Js.plus, Js.minus;
      intros H1 H2; rewrite (double_exact _ H1), (double_exact _ H2); reflexivity.
  - cbn [js_plus js_minus]. unfold Js.plus, Js.minus.
    intros H1 H2. rewrite (double_exact _ H1), (double_exact _ H2). reflexivity.
Qed.

(** C7, as amended. After a successful exchange whose answer gives
    [expires_in] as a JSON number or gives none, the token record returned
    and written to the token store is the answer stamped with
    [expires_at = now + lifetime - 30], where [now] is the epoch second at
    which the answer is processed and [lifetime] is the declared
    [expires_in], or 3600 when that is absent or zero; provided the sum and
    the stamp lie in the range where doubles are exact integers (up to 2^53
    in magnitude). *)
Theorem fetchToken_stamps_and_persists (E : Env) (a : ASMeta) (client : Client)
  (params : list (string * string)) (w : World) (dt : Z) (r : Response Token)
  (answer : Token) :
  token_server E (trace w) (token_request a client params) = (dt, Fulfilled r) ->
  ok r = true ->
  json_body r = inr answer ->
  numeric_lifetime answer = true ->
  let now := (clock w + dt) / 1000 in
  exact_integer (now + declared_lifetime answer) ->
  exact_integer (now + declared_lifetime answer - 30) ->
  let tok := set_expires_at (now + declared_lifetime answer - 30) answer in
  exists w',
    fetchToken E a client params w = (Ret tok, w') /\
    tokens_json (fs w') = Some tok /\
    expires_at tok = Some (now + declared_lifetime answer - 30).
Proof.
  intros Hs Hok Hj Hn now H1 H2 tok.
  unfold fetchToken, bind, fetch. fold (token_request a client params).
  rewrite Hs, Hok. cbn [negb].
  unfold res_json. rewrite Hj.
  unfold ret, now_seconds, bind, Date_now, writeJSON, modify, ret.
  cbn -[stamp Z.div]. fold now.
  rewrite (stamp_numeric E now answer Hn H1 H2).
  eexists. split; [reflexivity|]. split; reflexivity.
Qed.

Lemma fetchToken_stamps_and_persists_witness :
  exists w',
    fetchToken
      (Scenario.env (Scenario.granting (Scenario.token "new" (Some "R2") (Some 900) None))
         Scenario.unreachable [])
      (Scenario.idp None) Scenario.app [("grant_type", "refresh_token"); ("refresh_token", "R1")]
      (Scenario.boot (Scenario.files None None None)) =
    (Ret (Scenario.token "new" (Some "R2") (Some 900) (Some 2000000870)), w') /\
    tokens_json (fs w') = Some (Scenario.token "new" (Some "R2") (Some 900) (Some 2000000870)) /\
    expires_at (Scenario.token "new" (Some "R2") (Some 900) (Some 2000000870)) =
    Some (2000000000 + 900 - 30).
Proof.
  apply (fetchToken_stamps_and_persists
           (Scenario.env (Scenario.granting (Scenario.token "new" (Some "R2") (Some 900) None))
              Scenario.unreachable [])
           (Scenario.idp None) Scenario.app
           [("grant_type", "refresh_token"); ("refresh_token", "R1")]
           (Scenario.boot (Scenario.files None None None))
           7 _ _ eq_refl eq_refl eq_refl eq_refl);
    vm_compute; discriminate.
Defined.

(** C7 as stated fails in three ways, each shown on a refresh exchange in a
    process started at epoch second 2000000000.
    - A declared lifetime of zero counts as absent: for [expires_in: 0] the
      record written expires at 2000000000 + 3600 - 30, not at
      2000000000 + 0 - 30.
    - A lifetime given as a string is concatenated, not added: for
      [expires_in: '3600'] the sum is the string [20000000003600] and the
      record written expires at 20000000003570, not at
      2000000000 + 3600 - 30.
    - Numbers are doubles: for [expires_in: 9007199254740992] (2^53),
      answered one second later, the sum 9007201254740993 is rounded to
      9007201254740992 and the record written expires at 9007201254740962,
      not at 2000000001 + 9007199254740992 - 30. *)
Lemma fetchToken_stamp_counterexample :
  (let out := Demo.exchange 7 (Demo.answer (Some (JNum 0))) in
   let now := clock (snd out) / 1000 in
   now = 2000000000 /\
   lifetime_as_specified (Demo.answer (Some (JNum 0))) = 0 /\
   fst out = Ret (set_expires_at 2000003570 (Demo.answer (Some (JNum 0)))) /\
   tokens_json (fs (snd out)) = Some (set_expires_at 2000003570 (Demo.answer (Some (JNum 0)))) /\
   2000003570 <> now + lifetime_as_specified (Demo.answer (Some (JNum 0))) - 30) /\
  (let out := Demo.exchange 7 (Demo.answer (Some (JStr "3600"))) in
   let now := clock (snd out) / 1000 in
   now = 2000000000 /\
   fst out = Ret (set_expires_at 20000000003570 (Demo.answer (Some (JStr "3600")))) /\
   tokens_json (fs (snd out)) =
   Some (set_expires_at 20000000003570 (Demo.answer (Some (JStr "3600")))) /\
   20000000003570 <> now + 3600 - 30) /\
  (let out := Demo.exchange 1000 (Demo.answer (Some (JNum 9007199254740992))) in
   let now := clock (snd out) / 1000 in
   now = 2000000001 /\
   lifetime_as_specified (Demo.answer (Some (JNum 9007199254740992))) = 2 ^ 53 /\
   fst out = Ret (set_expires_at 9007201254740962 (Demo.answer (Some (JNum 9007199254740992)))) /\
   tokens_json (fs (snd out)) =
   Some (set_expires_at 9007201254740962 (Demo.answer (Some (JNum 9007199254740992)))) /\
   9007201254740962 <> now + lifetime_as_specified (Demo.answer (Some (JNum 9007199254740992))) - 30).
Proof.
  vm_compute. repeat split; discriminate.
Qed.

(** C10. When the token endpoint answers with a non-success status,
    [fetchToken] throws and the files of the store are what they were; and
    whenever [fetchToken] changes the store, the endpoint has answered with a
    success status and a body that parsed. *)
Theorem fetchToken_error_leaves_store (E : Env) (a : ASMeta) (client : Client)
  (params : list (string * string)) (w : World) :
  let reply := token_server E (trace w) (token_request a client params) in
  let out := fetchToken E a client params w in
  (forall dt r, reply = (dt, Fulfilled r) -> ok r = false ->
     fst out = Throw ("[oauth] token error " ++ Js.string_of_Z (status r) ++ ": " ++ text r) /\
     fs (snd out) = fs w) /\
  (fs (snd out) <> fs w ->
     exists dt r answer tok,
       reply = (dt, Fulfilled r) /\ ok r = true /\ json_body r = inr answer /\
       fst out = Ret tok).
Proof.
  intros reply out. subst reply out.
  unfold fetchToken, bind, fetch. fold (token_request a client params).
  destruct (token_server E (trace w) (token_request a client params)) as [dt [e| |r]] eqn:Hs.
  - split; [intros ? ? H; discriminate H|]. intros H. contradiction H. reflexivity.
  - split; [intros ? ? H; discriminate H|]. intros H. contradiction H. reflexivity.
  - split.
    + intros dt' r' H Hok. injection H as <- <-. rewrite Hok. cbn. split; reflexivity.
    + destruct (ok r) eqn:Hok; cbn [negb].
      * unfold res_json. destruct (json_body r) as [e|answer] eqn:Hj.
        -- intros H. contradiction H. reflexivity.
        -- intros _. exists dt, r, answer. eexists. repeat split; try assumption.
      * intros H. contradiction H. reflexivity.
Qed.

Lemma fetchToken_error_leaves_store_witness :
  let w := Scenario.boot (Scenario.files
             (Some (Scenario.token "cached" (Some "R1") (Some 3600) (Some 2000000000)))
             None None) in
  let out :=
    fetchToken (Scenario.env Scenario.refusing Scenario.unreachable [])
      (Scenario.idp None) Scenario.app
      [("grant_type", "refresh_token"); ("refresh_token", "R1")] w in
  fst out = Throw "[oauth] token error 400: invalid_grant" /\
  fs (snd out) = fs w.
Proof.
  exact (proj1 (fetchToken_error_leaves_store
                  (Scenario.env Scenario.refusing Scenario.unreachable [])
                  (Scenario.idp None) Scenario.app
                  [("grant_type", "refresh_token"); ("refresh_token", "R1")]
                  (Scenario.boot (Scenario.files
                     (Some (Scenario.token "cached" (Some "R1") (Some 3600) (Some 2000000000)))
                     None None)))
               7 _ eq_refl eq_refl).
Defined.

(* ====================================================================== *)
(** * The trace only grows *)
(* ====================================================================== *)

Create HintDb grows.

Section Grows.

Variable E : Env.

Lemma grows_ret {A} (a : A) : grows (ret a).
Proof. intros w. exists []. cbn. rewrite app_nil_r. reflexivity. Qed.

Lemma grows_throw {A} (e : string) : grows (@throw A e).
Proof. intros w. exists []. cbn. rewrite app_nil_r. reflexivity. Qed.

Lemma grows_bind {A B} (m : M A) (k : A -> M B) :
  grows m -> (forall a, grows (k a)) -> grows (bind m k).
Proof.
  intros Hm Hk w. unfold bind.
  destruct (Hm w) as [l Hl]. destruct (m w) as [[a|e| |e] w1]; cbn in Hl.
  - destruct (Hk a w1) as [l' Hl']. exists (l ++ l')%list.
    rewrite Hl', Hl, app_assoc. reflexivity.
  - exists l. exact Hl.
  - exists l. exact Hl.
  - exists l. exact Hl.
Qed.

Lemma grows_try_catch {A} (m : M A) (h : string -> M A) :
  grows m -> (forall e, grows (h e)) -> grows (try_catch m h).
Proof.
  intros Hm Hh w. unfold try_catch.
  destruct (Hm w) as [l Hl]. destruct (m w) as [[a|e| |e] w1]; cbn in Hl.
  - exists l. exact Hl.
  - destruct (Hh e w1) as [l' Hl']. exists (l ++ l')%list.
    rewrite Hl', Hl, app_assoc. reflexivity.
  - exists l. exact Hl.
  - exists l. exact Hl.
Qed.

Lemma grows_modify (f : World -> World) :
  (forall w, exists l, trace (f w) = (trace w ++ l)%list) -> grows (modify f).
Proof. intros H w. exact (H w). Qed.

Lemma grows_tick (dt : Z) : grows (modify (tick dt)).
Proof. apply grows_modify. intros w. exists []. cbn. rewrite app_nil_r. reflexivity. Qed.

Lemma grows_emit (e : Event) : grows (modify (emit e)).
Proof. apply grows_modify. intros w. exists [e]. reflexivity. Qed.

Lemma grows_set_listener (p : Port) : grows (modify (set_listener p)).
Proof. apply grows_modify. intros w. exists []. cbn. rewrite app_nil_r. reflexivity. Qed.

Lemma grows_writeJSON {A} (path : Path A) (obj : A) : grows (writeJSON path obj).
Proof. apply grows_modify. intros w. exists []. cbn. rewrite app_nil_r. reflexivity. Qed.

Lemma grows_Date_now : grows Date_now.
Proof. intros w. exists []. cbn. rewrite app_nil_r. reflexivity. Qed.

Lemma grows_fetch {A} (server : list Event -> Request -> Z * Reply A) (rq : Request) :
  grows (fetch server rq).
Proof.
  intros w. unfold fetch. destruct (server (trace w) rq) as [dt [e| |r]];
    exists [EvFetch rq]; reflexivity.
Qed.

Lemma grows_res_json {A} (r : Response A) : grows (res_json r).
Proof. unfold res_json. destruct (json_body r); [apply grows_throw | apply grows_ret]. Qed.

#[local] Hint Resolve grows_ret grows_throw grows_tick grows_emit grows_set_listener
  grows_writeJSON grows_Date_now grows_fetch grows_res_json : grows.

Ltac grow :=
  repeat first
    [ progress auto with grows
    | apply grows_bind; [| intros ?]
    | apply grows_try_catch; [| intros ?]
    | match goal with |- grows (if ?b then _ else _) => destruct b end
    | match goal with |- grows (match ?x with _ => _ end) => destruct x end ].

Lemma grows_fetchToken (a : ASMeta) (client : Client) (params : list (string * string)) :
  grows (fetchToken E a client params).
Proof. unfold fetchToken, now_seconds. grow. Qed.

Lemma grows_on_request (state : string) (rq : option CallbackURL) :
  grows (on_request state rq).
Proof. unfold on_request. grow. Qed.

Lemma grows_serve (state : string) (inbound : list (Z * option CallbackURL)) :
  grows (serve state inbound).
Proof.
  induction inbound as [|[dt rq] rest IH]; cbn [serve].
  - intros w. exists []. cbn. rewrite app_nil_r. reflexivity.
  - apply grows_bind; [apply grows_tick | intros _].
    apply grows_bind; [apply grows_on_request | intros s].
    destruct s; auto with grows.
Qed.

Lemma grows_listen (port : Z) (u : AuthURL) : grows (listen port u).
Proof.
  intros w. unfold listen. destruct (port_busy (listener w) (clock w)).
  - exists []. cbn. rewrite app_nil_r. reflexivity.
  - exists [EvListen port; EvOpenBrowser u]. cbn. rewrite <- app_assoc. reflexivity.
Qed.

Lemma grows_interactiveLogin (conf : ASMeta) (client : Client) :
  grows (interactiveLogin E conf client).
Proof.
  unfold interactiveLogin.
  apply grows_bind; [intros w; exists []; cbn; rewrite app_nil_r; reflexivity | intros r32].
  apply grows_bind; [intros w; exists []; cbn; rewrite app_nil_r; reflexivity | intros r16].
  destruct (URL_parse E (Js.String_of (authorization_endpoint conf))); [|apply grows_throw].
  apply grows_bind; [apply grows_listen | intros _].
  apply grows_bind; [intros w; exists []; cbn; rewrite app_nil_r; reflexivity | intros inbound].
  apply grows_bind; [apply grows_serve | intros code].
  apply grows_fetchToken.
Qed.

Lemma fetchToken_first_event (a : ASMeta) (client : Client) (params : list (string * string))
  (w : World) :
  trace (snd (fetchToken E a client params w)) =
  (trace w ++ [EvFetch (token_request a client params)])%list.
Proof.
  unfold fetchToken, bind, fetch. fold (token_request a client params).
  destruct (token_server E (trace w) (token_request a client params)) as [dt [e| |r]];
    try reflexivity.
  destruct (ok r); cbn [negb]; [|reflexivity].
  unfold res_json. destruct (json_body r); reflexivity.
Qed.

End Grows.

(** C4. With a cached token record that expires within 60 seconds of the
    current time (or has expired) and carries a refresh token, the first
    thing [ensureToken] does is the refresh request at the token endpoint;
    when the refresh succeeds its record is returned, and when the refresh
    throws, the error is logged and the result is that of the interactive
    login run from there. *)
Theorem ensureToken_refreshes_before_login (E : Env) (a : ASMeta) (client : Client)
  (w : World) (tok : Token) (t : Z) (r : string) :
  tokens_json (fs w) = Some tok ->
  expires_at tok = Some t ->
  t <= clock w / 1000 + 60 ->
  refresh_token tok = Some r ->
  r <> EmptyString ->
  let refresh :=
    fetchToken E a client [("grant_type", "refresh_token"); ("refresh_token", r)] w in
  (exists rest,
     trace (snd (ensureToken E a client w)) =
     (trace w ++ EvFetch (refresh_request a client r) :: rest)%list) /\
  (forall tok' w', refresh = (Ret tok', w') -> ensureToken E a client w = (Ret tok', w')) /\
  (forall e w', refresh = (Throw e, w') ->
     ensureToken E a client w = interactiveLogin E a client (emit (refresh_failed e) w')).
Proof.
  intros Hf Ht Hle Hr Hne refresh.
  assert (Hrun : ensureToken E a client w =
                 match refresh with
                 | (Throw e, w') => interactiveLogin E a client (emit (refresh_failed e) w')
                 | out => out
                 end).
  { unfold ensureToken, bind, readJSON, now_seconds, Date_now, ret, fresh. cbn.
    rewrite Hf, Ht, Hr.
    destruct (Z.ltb_spec (clock w / 1000 + 60) t); [lia|].
    destruct r as [|c r']; [contradiction Hne; reflexivity|].
    cbn [Js.truthy_opt Js.truthy_str Js.String_of].
    unfold try_catch. fold refresh.
    destruct refresh as [[tok'|e| |e] w']; reflexivity. }
  pose proof (fetchToken_first_event E a client
                [("grant_type", "refresh_token"); ("refresh_token", r)] w) as Hev.
  fold refresh in Hev. fold (refresh_request a client r) in Hev.
  split; [|split].
  - rewrite Hrun. destruct refresh as [[tok'|e| |e] w']; cbn [snd] in *;
      try (exists []; exact Hev).
    destruct (grows_interactiveLogin E a client (emit (refresh_failed e) w')) as [l Hl].
    exists (refresh_failed e :: l). rewrite Hl. cbn [emit trace]. rewrite Hev.
    rewrite <- !app_assoc. reflexivity.
  - intros tok' w' H. rewrite Hrun, H. reflexivity.
  - intros e w' H. rewrite Hrun, H. reflexivity.
Qed.

Lemma ensureToken_refreshes_before_login_witness :
  let E := Scenario.env (Scenario.granting (Scenario.token "new" (Some "R2") (Some 900) None))
             Scenario.unreachable [] in
  let w := Scenario.boot (Scenario.files
             (Some (Scenario.token "cached" (Some "R1") (Some 3600) (Some 2000000060)))
             None None) in
  (exists rest,
     trace (snd (ensureToken E (Scenario.idp None) Scenario.app w)) =
     (trace w ++ EvFetch (refresh_request (Scenario.idp None) Scenario.app "R1") :: rest)%list) /\
  fst (ensureToken E (Scenario.idp None) Scenario.app w) =
  Ret (Scenario.token "new" (Some "R2") (Some 900) (Some 2000000870)).
Proof.
  intros E w.
  destruct (ensureToken_refreshes_before_login E (Scenario.idp None) Scenario.app w
              (Scenario.token "cached" (Some "R1") (Some 3600) (Some 2000000060))
              2000000060 "R1" eq_refl eq_refl) as [H1 [H2 _]].
  - vm_compute. discriminate.
  - reflexivity.
  - discriminate.
  - split; [exact H1|].
    rewrite (H2 _ _ eq_refl). reflexivity.
Defined.

(* ====================================================================== *)
(** * The STDIO loop *)
(* ====================================================================== *)

Section Loop.

Variable E : Env.

Lemma indexOf_nl_shrinks (buf : string) (i : nat) :
  Js.indexOf_nl buf = Some i ->
  (String.length (Js.slice_from (S i) buf) < String.length buf)%nat.
Proof.
  revert i. induction buf as [|c r IH]; intros i H; [discriminate H|].
  cbn [Js.indexOf_nl] in H. destruct (Js.ascii_eqb c Js.nl).
  - injection H as <-. cbn. destruct r; cbn; lia.
  - destruct (Js.indexOf_nl r) as [k|]; [|discriminate H].
    injection H as <-. specialize (IH k eq_refl).
    cbn [Js.slice_from String.length] in *. lia.
Qed.

(** The iteration bound is never what stops the loop. *)
Lemma stdin_loop_bound (n m : nat) (buf : string) (w : World) :
  (String.length buf <= n)%nat -> (String.length buf <= m)%nat ->
  stdin_loop E n buf w = stdin_loop E m buf w.
Proof.
  revert m buf w. induction n as [|n IH]; intros m buf w Hn Hm.
  - destruct buf; [|cbn in Hn; lia]. destruct m; reflexivity.
  - destruct m as [|m].
    + destruct buf; [|cbn in Hm; lia]. reflexivity.
    + cbn [stdin_loop]. destruct (Js.indexOf_nl buf) as [i|] eqn:Hi; [|reflexivity].
      pose proof (indexOf_nl_shrinks buf i Hi) as Hlt.
      unfold bind. destruct (on_line E (Js.trim (Js.slice_to i buf)) w) as [[[]|e| |e] w1];
        try reflexivity.
      apply IH; lia.
Qed.

Lemma stdin_loop_total (n : nat) (buf : string) (w : World) :
  (String.length buf <= n)%nat -> fst (stdin_loop E n buf w) <> Ret None.
Proof.
  revert buf w. induction n as [|n IH]; intros buf w Hn.
  - destruct buf; [|cbn in Hn; lia]. cbn. discriminate.
  - cbn [stdin_loop]. destruct (Js.indexOf_nl buf) as [i|] eqn:Hi; [|cbn; discriminate].
    pose proof (indexOf_nl_shrinks buf i Hi) as Hlt.
    unfold bind. destruct (on_line E (Js.trim (Js.slice_to i buf)) w) as [[[]|e| |e] w1];
      cbn [fst]; try discriminate.
    apply IH. lia.
Qed.

(** The data listener always leaves the loop through its condition. *)
Lemma on_data_total (buf chunk : string) (w : World) :
  fst (on_data E buf chunk w) <> Ret None.
Proof. unfold on_data. apply stdin_loop_total. lia. Qed.

Lemma first_line_index (line rest : string) :
  Js.indexOf_nl line = None ->
  Js.indexOf_nl (line ++ String Js.nl rest) = Some (String.length line).
Proof.
  induction line as [|c r IH]; intros H; [reflexivity|].
  cbn [Js.indexOf_nl] in H. cbn [String.append Js.indexOf_nl String.length].
  destruct (Js.ascii_eqb c Js.nl); [discriminate H|].
  destruct (Js.indexOf_nl r); [discriminate H|].
  rewrite (IH eq_refl). reflexivity.
Qed.

Lemma first_line_slice_to (line rest : string) :
  Js.slice_to (String.length line) (line ++ String Js.nl rest) = line.
Proof.
  induction line as [|c r IH]; [reflexivity|].
  change (String c (Js.slice_to (String.length r) (r ++ String Js.nl rest)) = String c r).
  rewrite IH. reflexivity.
Qed.

Lemma first_line_slice_from (line rest : string) :
  Js.slice_from (S (String.length line)) (line ++ String Js.nl rest) = rest.
Proof.
  induction line as [|c r IH]; [destruct rest; reflexivity|].
  exact IH.
Qed.

(** One turn of the loop on a buffer that starts with a complete line. *)
Lemma on_data_first_line (buf chunk line rest : string) (w : World) :
  (buf ++ chunk)%string = (line ++ String Js.nl rest)%string ->
  Js.indexOf_nl line = None ->
  on_data E buf chunk w =
  match on_line E (Js.trim line) w with
  | (Ret _, w') => on_data E EmptyString rest w'
  | (Throw e, w') => (Throw e, w')
  | (Hang, w') => (Hang, w')
  | (Crash e, w') => (Crash e, w')
  end.
Proof.
  intros Hb Hl. unfold on_data. rewrite Hb.
  pose proof (first_line_index line rest Hl) as H1.
  pose proof (first_line_slice_to line rest) as H2.
  pose proof (first_line_slice_from line rest) as H3.
  assert (Hlen : String.length (line ++ String Js.nl rest) =
                 S (String.length line + String.length rest)).
  { clear. induction line as [|c r IH]; cbn; [reflexivity|]. rewrite IH. reflexivity. }
  rewrite Hlen. cbn [stdin_loop]. rewrite H1, H2, H3.
  unfold bind. destruct (on_line E (Js.trim line) w) as [[[]|e| |e] w1]; try reflexivity.
  cbn [String.append]. apply stdin_loop_bound; lia.
Qed.

End Loop.

(** C8, as amended. For every input line that, once trimmed, is not empty
    and is not valid JSON, the relay writes exactly the parse-error line
    and goes on with the rest of the input. *)
Theorem parse_error_line_and_continue (E : Env) (buf chunk line rest : string) (w : World) :
  (buf ++ chunk)%string = (line ++ String Js.nl rest)%string ->
  Js.indexOf_nl line = None ->
  Js.trim line <> EmptyString ->
  JSON_parse E (Js.trim line) = None ->
  on_data E buf chunk w = on_data E EmptyString rest (print parse_error_line w) /\
  parse_error_line =
  (dquoted "{'jsonrpc':'2.0','id':null,'error':{'code':-32700,'message':'Parse error'}}"
   ++ String Js.nl EmptyString)%string.
Proof.
  intros Hb Hl Hne Hp. split; [|vm_compute; reflexivity].
  rewrite (on_data_first_line E buf chunk line rest w Hb Hl).
  unfold on_line. destruct (Js.trim line) as [|c r] eqn:Ht; [contradiction Hne; reflexivity|].
  cbn [Js.truthy_str negb]. rewrite Hp. reflexivity.
Qed.

Lemma parse_error_line_and_continue_witness :
  let E := Scenario.env Scenario.refusing Scenario.unreachable [] in
  let w := Scenario.boot (Scenario.files None None None) in
  JSON_parse E "not json" = None /\
  on_data E EmptyString ("not json" ++ String Js.nl "tail") w =
  (Ret (Some "tail"), print parse_error_line w).
Proof.
  intros E w. split; [reflexivity|].
  destruct (parse_error_line_and_continue E EmptyString
              ("not json" ++ String Js.nl "tail") "not json" "tail" w) as [H _].
  - reflexivity.
  - reflexivity.
  - vm_compute. discriminate.
  - reflexivity.
  - rewrite H. reflexivity.
Defined.

(** C8 as stated fails on a blank line: two spaces are not valid JSON, and
    the relay writes nothing for them. *)
Lemma blank_line_counterexample :
  let E := Scenario.env Scenario.refusing Scenario.unreachable [] in
  let w := Scenario.boot (Scenario.files None None None) in
  JSON_parse E "  " = None /\
  on_data E EmptyString ("  " ++ String Js.nl EmptyString) w = (Ret (Some EmptyString), w) /\
  stdout (snd (on_data E EmptyString ("  " ++ String Js.nl EmptyString) w)) <>
  (stdout w ++ [parse_error_line])%list.
Proof.
  vm_compute. repeat split; discriminate.
Qed.

(* ====================================================================== *)
(** * Relay errors *)
(* ====================================================================== *)

Lemma dynamicRegister_no_endpoint (E : Env) (a : ASMeta) (w : World) :
  registration_endpoint a = None ->
  client_matches (client_metadata_json (fs w)) a = false ->
  dynamicRegister E a w = (Throw no_registration_endpoint, w).
Proof.
  intros Hr Hm. unfold dynamicRegister, bind, readJSON. cbn [get CLIENT_FILE].
  unfold client_matches in Hm.
  destruct (client_metadata_json (fs w)) as [c|].
  - rewrite Hm. unfold register_remote. rewrite Hr. reflexivity.
  - unfold register_remote. rewrite Hr. reflexivity.
Qed.

(** C2, as amended. When discovery yields metadata without a registration
    endpoint and no cached client registration matches its issuer, the relay
    answers a request (any JSON value but [null]) with an error response of
    code -32000 whose message names the missing registration endpoint, and
    goes on with the rest of the input. *)
Theorem missing_registration_endpoint_response (E : Env) (buf chunk line rest : string)
  (w w1 : World) (j : json) (id : option json) (a : ASMeta) :
  (buf ++ chunk)%string = (line ++ String Js.nl rest)%string ->
  Js.indexOf_nl line = None ->
  Js.trim line <> EmptyString ->
  JSON_parse E (Js.trim line) = Some j ->
  Json.get_id j = inr id ->
  discover E w = (Ret a, w1) ->
  registration_endpoint a = None ->
  client_matches (client_metadata_json (fs w1)) a = false ->
  on_data E buf chunk w =
  on_data E EmptyString rest
    (print (json_line (Json.rpc_error (Json.nullish id) (-32000) no_registration_endpoint)) w1).
Proof.
  intros Hb Hl Hne Hp Hid Hd Hr Hm.
  rewrite (on_data_first_line E buf chunk line rest w Hb Hl).
  unfold on_line. destruct (Js.trim line) as [|c r] eqn:Ht; [contradiction Hne; reflexivity|].
  cbn [Js.truthy_str negb]. rewrite Hp.
  unfold try_catch, bind at 1, handleRequest, bind at 1. rewrite Hd.
  unfold bind at 1, ensureClient. rewrite (dynamicRegister_no_endpoint E a w1 Hr Hm).
  unfold error_response, bind. rewrite Hid. reflexivity.
Qed.

Lemma missing_registration_endpoint_response_witness :
  let E := Scenario.env Scenario.refusing Scenario.unreachable [] in
  let w := Scenario.boot (Scenario.files None (Some (Scenario.idp None)) None) in
  on_data E EmptyString (json_line Scenario.ping) w =
  (Ret (Some EmptyString),
   print (json_line (Json.rpc_error (JNum 1) (-32000) no_registration_endpoint)) w).
Proof.
  intros E w.
  rewrite (missing_registration_endpoint_response E EmptyString (json_line Scenario.ping)
             (Json.stringify Scenario.ping) EmptyString w w Scenario.ping (Some (JNum 1))
             (Scenario.idp None)).
  - reflexivity.
  - reflexivity.
  - reflexivity.
  - vm_compute. discriminate.
  - reflexivity.
  - reflexivity.
  - reflexivity.
  - reflexivity.
  - reflexivity.
Defined.

(** C2 as stated fails on the error code: with no registration endpoint and
    no cached client, the line written for the request
    [{"jsonrpc":"2.0","id":1,"method":"ping"}] carries code -32000,
    not -32001. *)
Lemma missing_registration_endpoint_counterexample :
  let E := Scenario.env Scenario.refusing Scenario.unreachable [] in
  let w := Scenario.boot (Scenario.files None (Some (Scenario.idp None)) None) in
  let out := on_data E EmptyString (json_line Scenario.ping) w in
  registration_endpoint (Scenario.idp None) = None /\
  client_metadata_json (fs w) = None /\
  stdout (snd out) =
  [(dquoted "{'jsonrpc':'2.0','id':1,'error':{'code':-32000,'message':'[oidc] no registration endpoint: enable DCR or pre-provision a client'}}"
    ++ String Js.nl EmptyString)%string] /\
  stdout (snd out) <>
  [json_line (Json.rpc_error (JNum 1) (-32001) no_registration_endpoint)].
Proof.
  vm_compute. repeat split; discriminate.
Qed.

(** C1: the code at the failing input.  The store holds a token record that
    is still 3570 seconds from expiry and carries a refresh token; the remote
    endpoint rejects the first forward with 401 and accepts the next.  The
    relay makes no request to the token endpoint: the second [ensureToken]
    returns the cached record, and the retried forward carries the very
    token that was rejected. *)
Theorem retry_after_401_reuses_cached_token :
  let E := Scenario.env
             (Scenario.granting (Scenario.token "new" (Some "R2") (Some 3600) None))
             Scenario.remote_401_then_200 [] in
  let w := Scenario.boot (Scenario.files
             (Some (Scenario.token "cached" (Some "R1") (Some 3600) (Some 2000003570)))
             (Some (Scenario.idp None)) (Some Scenario.app)) in
  let out := on_data E EmptyString (json_line Scenario.ping) w in
  fst out = Ret (Some EmptyString) /\
  trace (snd out) =
  [EvFetch (Scenario.forward_request "cached" Scenario.ping);
   EvFetch (Scenario.forward_request "cached" Scenario.ping)] /\
  filter Scenario.is_token_request (trace (snd out)) = [] /\
  fs (snd out) = fs w /\
  stdout (snd out) = [json_line Scenario.pong].
Proof.
  vm_compute. repeat split; reflexivity.
Qed.


(** With a cached record that is stale by the clock, the refresh happens
    before the first forward; the retry after the 401 still carries the
    token that was rejected. *)
Example retry_after_401_with_expired_cache :
  let E := Scenario.env
             (Scenario.granting (Scenario.token "new" (Some "R2") (Some 3600) None))
             Scenario.remote_401_then_200 [] in
  let w := Scenario.boot (Scenario.files
             (Some (Scenario.token "cached" (Some "R1") (Some 3600) (Some 2000000060)))
             (Some (Scenario.idp None)) (Some Scenario.app)) in
  trace (snd (on_data E EmptyString (json_line Scenario.ping) w)) =
  [EvFetch (refresh_request (Scenario.idp None) Scenario.app "R1");
   EvFetch (Scenario.forward_request "new" Scenario.ping);
   EvFetch (Scenario.forward_request "new" Scenario.ping)].
Proof. vm_compute. reflexivity. Qed.

(** A request that is the JSON value [null] makes the handler's own [catch]
    throw while it reads [j.id]: the data listener rejects. *)
Example null_request_rejects :
  let E := Scenario.env Scenario.refusing Scenario.unreachable [] in
  let w := Scenario.boot (Scenario.files None (Some (Scenario.idp None)) None) in
  on_data E EmptyString ("null" ++ String Js.nl EmptyString) w =
  (Throw "Cannot read properties of null (reading 'id')", w).
Proof. vm_compute. reflexivity. Qed.

(* ====================================================================== *)
(** * The callback listener *)
(* ====================================================================== *)

(** A request that does not resolve the login leaves the listener alone. *)
Lemma on_request_keeps_listener (state : string) (rq : option CallbackURL) (w w' : World)
  (s : Settle) :
  on_request state rq w = (Ret s, w') ->
  (forall code, s <> Resolve code) ->
  listener w' = listener w.
Proof.
  unfold on_request. destruct rq as [u|].
  - destruct (negb (String.eqb (cb_pathname u) "/callback")).
    + cbn. intros H _. injection H as <- <-. reflexivity.
    + destruct (negb (Js.truthy_opt (cb_code u)) || negb (strict_eq (cb_state u) (Some state))).
      * cbn. intros H _. injection H as <- <-. reflexivity.
      * cbn. intros H Hs. injection H as <- <-. exfalso. eapply Hs. reflexivity.
  - cbn. intros H _. injection H as <- <-. reflexivity.
Qed.

(** When the pending login rejects, no close of the listener has been
    scheduled: the port is as bound as [listen] left it. *)
Lemma serve_reject_keeps_listener (state : string) (inbound : list (Z * option CallbackURL))
  (w w' : World) (e : string) :
  serve state inbound w = (Throw e, w') -> listener w' = listener w.
Proof.
  revert w. induction inbound as [|[dt rq] rest IH]; intros w; cbn [serve].
  - discriminate.
  - unfold bind at 1. cbn [modify]. unfold bind at 1.
    destruct (on_request state rq (tick dt w)) as [[s|e'| |e'] w1] eqn:Hq.
    + destruct s as [|code|msg].
      * intros H. rewrite (IH _ H).
        rewrite (on_request_keeps_listener _ _ _ _ _ Hq); [reflexivity | discriminate].
      * discriminate.
      * cbn. intros H. injection H as <- <-.
        rewrite (on_request_keeps_listener _ _ _ _ _ Hq); [reflexivity | discriminate].
    + exfalso. revert Hq. unfold on_request.
      repeat (match goal with
              | |- context [match ?x with _ => _ end] => destruct x
              end; cbn); discriminate.
    + discriminate.
    + discriminate.
Qed.

(** C9: the code at the failing input.  The browser comes back on
    [/callback] with a code and a [state] that is not the generated one.  The
    login rejects with a state mismatch and the listener it started stays
    bound for good: no close is scheduled, while the path that captures the
    code schedules one. *)
Theorem failed_login_leaves_listener_bound :
  let forged := {| cb_pathname := "/callback"; cb_code := Some "abc";
                   cb_state := Some "forged" |} in
  let genuine := {| cb_pathname := "/callback"; cb_code := Some "abc";
                    cb_state := Some "AQEBAQEBAQEBAQEBAQEBAQ" |} in
  let E inbound := Scenario.env
                     (Scenario.granting (Scenario.token "new" None (Some 3600) None))
                     Scenario.unreachable inbound in
  let w := Scenario.boot (Scenario.files None None None) in
  let failed := interactiveLogin (E [(1000, Some forged)]) (Scenario.idp None) Scenario.app w in
  let complete := interactiveLogin (E [(1000, Some genuine)]) (Scenario.idp None) Scenario.app w in
  fst failed = Throw "state mismatch" /\
  listener (snd failed) = Bound None /\
  (forall t, port_busy (listener (snd failed)) t = true) /\
  fst complete = Ret (Scenario.token "new" None (Some 3600) (Some 2000003571)) /\
  listener (snd complete) = Bound (Some 2000000001100).
Proof.
  vm_compute. repeat split; reflexivity.
Qed.

(* ====================================================================== *)
(** * What each operation leaves alone *)
(* ====================================================================== *)

Create HintDb keeps.

Section Keeps.

Variable E : Env.
Context {X : Type}.
Variable component : World -> X.

Lemma keeps_ret {A} (a : A) : keeps component (ret a).
Proof. intros w. reflexivity. Qed.

Lemma keeps_throw {A} (e : string) : keeps component (@throw A e).
Proof. intros w. reflexivity. Qed.

Lemma keeps_bind {A B} (m : M A) (k : A -> M B) :
  keeps component m -> (forall a, keeps component (k a)) -> keeps component (bind m k).
Proof.
  intros Hm Hk w. unfold bind. specialize (Hm w).
  destruct (m w) as [[a|e| |e] w1]; cbn [snd] in *; try exact Hm.
  rewrite (Hk a w1). exact Hm.
Qed.

Lemma keeps_try_catch {A} (m : M A) (h : string -> M A) :
  keeps component m -> (forall e, keeps component (h e)) -> keeps component (try_catch m h).
Proof.
  intros Hm Hh w. unfold try_catch. specialize (Hm w).
  destruct (m w) as [[a|e| |e] w1]; cbn [snd] in *; try exact Hm.
  rewrite (Hh e w1). exact Hm.
Qed.

Lemma keeps_modify (f : World -> World) :
  (forall w, component (f w) = component w) -> keeps component (modify f).
Proof. intros H w. exact (H w). Qed.

Lemma keeps_Date_now : keeps component Date_now.
Proof. intros w. reflexivity. Qed.

Lemma keeps_now_seconds : keeps component now_seconds.
Proof. intros w. reflexivity. Qed.

Lemma keeps_readJSON {A} (path : Path A) : keeps component (readJSON path).
Proof. intros w. reflexivity. Qed.

Lemma keeps_res_json {A} (r : Response A) : keeps component (res_json r).
Proof. unfold res_json. destruct (json_body r); intros w; reflexivity. Qed.

Lemma keeps_fetch {A} (server : list Event -> Request -> Z * Reply A) (rq : Request) :
  (forall dt e w, component (tick dt (emit e w)) = component w) ->
  keeps component (fetch server rq).
Proof.
  intros H w. unfold fetch. destruct (server (trace w) rq) as [dt [e| |r]]; apply H.
Qed.

End Keeps.

#[local] Hint Resolve keeps_ret keeps_throw keeps_Date_now keeps_now_seconds keeps_readJSON
  keeps_res_json : keeps.

Ltac keep :=
  repeat first
    [ progress auto with keeps
    | apply keeps_bind; [| intros ?]
    | apply keeps_try_catch; [| intros ?]
    | apply keeps_fetch; [intros; reflexivity]
    | apply keeps_modify; [intros; reflexivity]
    | match goal with |- keeps _ (if ?b then _ else _) => destruct b end
    | match goal with |- keeps _ (match ?x with _ => _ end) => destruct x end ].

Section KeepsStdout.

Variable E : Env.

Lemma keeps_stdout_fetchToken a c p : keeps stdout (fetchToken E a c p).
Proof. unfold fetchToken, writeJSON. keep. Qed.

Lemma keeps_stdout_serve state inbound : keeps stdout (serve state inbound).
Proof.
  induction inbound as [|[dt rq] rest IH]; cbn [serve]; [intros w; reflexivity|].
  unfold on_request. keep; apply IH.
Qed.

Lemma keeps_stdout_interactiveLogin conf c : keeps stdout (interactiveLogin E conf c).
Proof.
  unfold interactiveLogin.
  apply keeps_bind; [intros w; reflexivity | intros r32].
  apply keeps_bind; [intros w; reflexivity | intros r16].
  destruct (URL_parse E (Js.String_of (authorization_endpoint conf))); [|apply keeps_throw].
  apply keeps_bind.
  { intros w. unfold listen. destruct (port_busy (listener w) (clock w)); reflexivity. }
  intros _. apply keeps_bind; [intros w; reflexivity | intros inbound].
  apply keeps_bind; [apply keeps_stdout_serve | intros code].
  apply keeps_stdout_fetchToken.
Qed.

Lemma keeps_stdout_ensureToken a c : keeps stdout (ensureToken E a c).
Proof.
  unfold ensureToken, console_error.
  pose proof (keeps_stdout_interactiveLogin a c).
  pose proof (fun p => keeps_stdout_fetchToken a c p).
  keep.
Qed.

Lemma keeps_stdout_discover : keeps stdout (discover E).
Proof.
  unfold discover, discover_remote, getPRM, getASMetadata, fetchJSON, writeJSON. keep.
Qed.

Lemma keeps_stdout_ensureClient a : keeps stdout (ensureClient E a).
Proof.
  unfold ensureClient, dynamicRegister, register_remote, writeJSON. keep.
Qed.

Lemma keeps_stdout_forward j t : keeps stdout (forwardJsonRpcToRemote E j t).
Proof. unfold forwardJsonRpcToRemote. keep. Qed.

Lemma keeps_stdout_error_response j code e : keeps stdout (error_response j code e).
Proof. unfold error_response. keep. Qed.

Lemma keeps_stdout_handleRequest j : keeps stdout (handleRequest E j).
Proof.
  unfold handleRequest.
  pose proof keeps_stdout_discover. pose proof keeps_stdout_ensureClient.
  pose proof keeps_stdout_ensureToken. pose proof keeps_stdout_forward.
  pose proof keeps_stdout_error_response.
  keep.
Qed.

End KeepsStdout.

(* ====================================================================== *)
(** * The relay loop, line by line *)
(* ====================================================================== *)

Section Lines.

Variable E : Env.

(** What [on_line] can do to the standard output: nothing, or one response
    line; when it returns on a non-empty line, it is one response line. *)
Lemma on_line_stdout (line : string) (w : World) :
  line <> EmptyString ->
  match on_line E line w with
  | (Ret _, w') => exists v, stdout w' = (stdout w ++ [json_line v])%list
  | (_, w') => stdout w' = stdout w
  end.
Proof.
  intros Hne. unfold on_line.
  destruct line as [|c r]; [contradiction Hne; reflexivity|].
  cbn [Js.truthy_str negb].
  destruct (JSON_parse E (String c r)) as [j|].
  - unfold try_catch, bind at 1.
    pose proof (keeps_stdout_handleRequest E j w) as Hk.
    destruct (handleRequest E j w) as [[v|e| |e] w1]; cbn [snd] in Hk.
    + cbv [stdout_write modify print stdout]. exists v. fold (json_line v).
      fold (stdout w1). rewrite Hk. reflexivity.
    + unfold bind, error_response. destruct (Json.get_id j) as [te|id].
      * exact Hk.
      * cbv [ret stdout_write modify print stdout]. eexists.
        fold (stdout w1). rewrite Hk. unfold json_line. reflexivity.
    + exact Hk.
    + exact Hk.
  - exists (Json.rpc_error JNull (-32700) "Parse error"). reflexivity.
Qed.

(** X4. The loop body throws only for the request [null]: for any other
    request, whatever [handleRequest] throws is turned into a response
    line. *)
Theorem on_line_throws_only_on_null (line : string) (w : World) (e : string) :
  fst (on_line E line w) = Throw e -> JSON_parse E line = Some JNull.
Proof.
  unfold on_line. destruct (negb (Js.truthy_str line)); [discriminate|].
  destruct (JSON_parse E line) as [j|]; [|discriminate].
  unfold try_catch, bind at 1.
  destruct (handleRequest E j w) as [[v|e'| |e'] w1]; try discriminate.
  unfold bind, error_response.
  destruct j; try discriminate. reflexivity.
Qed.

End Lines.

(* ====================================================================== *)
(** * Framing of the output *)
(* ====================================================================== *)

Section NoNewline.

Lemma no_nl_app (a b : string) :
  Js.indexOf_nl a = None -> Js.indexOf_nl b = None -> Js.indexOf_nl (a ++ b) = None.
Proof.
  intros Ha Hb. induction a as [|c r IH]; [exact Hb|].
  cbn [String.append Js.indexOf_nl] in *.
  destruct (Js.ascii_eqb c Js.nl); [discriminate Ha|].
  destruct (Js.indexOf_nl r); [discriminate Ha|].
  rewrite (IH eq_refl). reflexivity.
Qed.

Lemma no_nl_cons (c : ascii) (r : string) :
  Js.ascii_eqb c Js.nl = false -> Js.indexOf_nl r = None ->
  Js.indexOf_nl (String c r) = None.
Proof. intros Hc Hr. cbn [Js.indexOf_nl]. rewrite Hc, Hr. reflexivity. Qed.

Lemma no_nl_escape_char (c : ascii) : Js.indexOf_nl (Json.escape_char c) = None.
Proof. destruct c as [[|] [|] [|] [|] [|] [|] [|] [|]]; reflexivity. Qed.

Lemma no_nl_escape (s : string) : Js.indexOf_nl (Json.escape s) = None.
Proof.
  induction s as [|c r IH]; [reflexivity|].
  cbn [Json.escape]. apply no_nl_app; [apply no_nl_escape_char | exact IH].
Qed.

Lemma no_nl_quote (s : string) : Js.indexOf_nl (Json.quote s) = None.
Proof.
  unfold Json.quote. apply no_nl_app; [reflexivity|].
  apply no_nl_app; [apply no_nl_escape | reflexivity].
Qed.

Lemma no_nl_uint (d : Decimal.uint) : Js.indexOf_nl (NilEmpty.string_of_uint d) = None.
Proof.
  induction d; cbn [NilEmpty.string_of_uint]; try reflexivity;
    apply no_nl_cons; (reflexivity || assumption).
Qed.

Lemma no_nl_string_of_Z (z : Z) : Js.indexOf_nl (Js.string_of_Z z) = None.
Proof.
  unfold Js.string_of_Z, NilZero.string_of_int.
  destruct (Z.to_int z) as [d|d]; unfold NilZero.string_of_uint.
  - destruct d; try reflexivity; apply no_nl_uint.
  - apply no_nl_cons; [reflexivity|]. destruct d; try reflexivity; apply no_nl_uint.
Qed.

Lemma no_nl_join (sep : string) (l : list string) :
  Js.indexOf_nl sep = None -> Forall (fun s => Js.indexOf_nl s = None) l ->
  Js.indexOf_nl (Json.join sep l) = None.
Proof.
  intros Hs H. induction H as [|x r Hx Hr IH]; [reflexivity|].
  cbn [Json.join]. destruct r as [|y r']; [exact Hx|].
  apply no_nl_app; [exact Hx|]. apply no_nl_app; [exact Hs | exact IH].
Qed.

Lemma no_nl_stringify (v : json) : Js.indexOf_nl (Json.stringify v) = None.
Proof.
  revert v. fix IH 1. intros [ | b | z | s | l | m ]; cbn [Json.stringify].
  - reflexivity.
  - destruct b; reflexivity.
  - apply no_nl_string_of_Z.
  - apply no_nl_quote.
  - apply no_nl_app; [reflexivity|]. apply no_nl_app; [|reflexivity].
    apply no_nl_join; [reflexivity|].
    induction l as [|a l IHl]; constructor; [apply IH | exact IHl].
  - apply no_nl_app; [reflexivity|]. apply no_nl_app; [|reflexivity].
    apply no_nl_join; [reflexivity|].
    induction m as [|[k a] m IHm]; constructor; [|exact IHm].
    cbn [fst snd]. apply no_nl_app; [apply no_nl_quote|].
    apply no_nl_app; [reflexivity | apply IH].
Qed.

Lemma one_line_json_line (v : json) : one_line (json_line v).
Proof. exists (Json.stringify v). split; [reflexivity | apply no_nl_stringify]. Qed.

End NoNewline.

Section Framing.

Variable E : Env.

Lemma on_line_framed (line : string) (w : World) :
  Forall one_line (stdout w) -> Forall one_line (stdout (snd (on_line E line w))).
Proof.
  intros H. destruct line as [|c r]; [exact H|].
  pose proof (on_line_stdout E (String c r) w) as Hs.
  destruct (on_line E (String c r) w) as [[u|e| |e] w1]; cbn [snd];
    try (rewrite Hs by discriminate; exact H).
  destruct Hs as [v Hv]; [discriminate|]. rewrite Hv.
  apply Forall_app. split; [exact H|]. constructor; [apply one_line_json_line | constructor].
Qed.

Lemma stdin_loop_framed (n : nat) (buf : string) (w : World) :
  Forall one_line (stdout w) -> Forall one_line (stdout (snd (stdin_loop E n buf w))).
Proof.
  revert buf w. induction n as [|n IH]; intros buf w H.
  - cbn [stdin_loop]. destruct (Js.indexOf_nl buf); exact H.
  - cbn [stdin_loop]. destruct (Js.indexOf_nl buf) as [i|]; [|exact H].
    unfold bind.
    pose proof (on_line_framed (Js.trim (Js.slice_to i buf)) w H) as H1.
    destruct (on_line E (Js.trim (Js.slice_to i buf)) w) as [[u|e| |e] w1]; cbn [snd] in *;
      try exact H1.
    apply IH. exact H1.
Qed.

(** X3. Whatever the input and whatever the remote returns, every string the
    data listener writes to the standard output is one line: a body
    without newline followed by a newline. *)
Theorem on_data_writes_whole_lines (buf chunk : string) (w : World) :
  Forall one_line (stdout w) ->
  Forall one_line (stdout (snd (on_data E buf chunk w))).
Proof. intros H. unfold on_data. apply stdin_loop_framed. exact H. Qed.

End Framing.

(* ====================================================================== *)
(** * The relay loop, chunk by chunk *)
(* ====================================================================== *)

Section Chunks.

Variable E : Env.

Lemma string_length_app (a b : string) :
  String.length (a ++ b) = (String.length a + String.length b)%nat.
Proof. induction a as [|c r IH]; cbn; [reflexivity | rewrite IH; reflexivity]. Qed.

Lemma append_nil_r (a : string) : (a ++ EmptyString)%string = a.
Proof. induction a as [|c r IH]; cbn; [reflexivity | rewrite IH; reflexivity]. Qed.

(** A buffer has no newline, or starts with a complete line. *)
Lemma first_line_cases (s : string) :
  Js.indexOf_nl s = None \/
  exists line rest,
    s = (line ++ String Js.nl rest)%string /\ Js.indexOf_nl line = None.
Proof.
  induction s as [|c r IH]; [left; reflexivity|].
  destruct (Js.ascii_eqb c Js.nl) eqn:Hc.
  - right. exists EmptyString, r. split; [|reflexivity].
    apply Ascii.eqb_eq in Hc. subst c. reflexivity.
  - destruct IH as [Hn | [line [rest [Hs Hl]]]].
    + left. apply no_nl_cons; assumption.
    + right. exists (String c line), rest. split.
      * cbn. rewrite Hs. reflexivity.
      * apply no_nl_cons; assumption.
Qed.

Lemma on_data_no_newline (buf chunk : string) (w : World) :
  Js.indexOf_nl (buf ++ chunk) = None ->
  on_data E buf chunk w = (Ret (Some (buf ++ chunk)%string), w).
Proof.
  intros H. unfold on_data.
  destruct (String.length (buf ++ chunk)); cbn [stdin_loop]; rewrite H; reflexivity.
Qed.

Lemma on_data_append (buf chunk : string) (w : World) :
  on_data E buf chunk w = on_data E EmptyString (buf ++ chunk) w.
Proof. reflexivity. Qed.

Lemma split_lines_no_newline (acc s : string) :
  Js.indexOf_nl s = None -> split_lines acc s = ([], (acc ++ s)%string).
Proof.
  revert acc. induction s as [|c r IH]; intros acc H.
  - cbn. rewrite append_nil_r. reflexivity.
  - cbn [Js.indexOf_nl] in H. cbn [split_lines].
    destruct (Js.ascii_eqb c Js.nl); [discriminate H|].
    destruct (Js.indexOf_nl r); [discriminate H|].
    rewrite (IH _ eq_refl), append_assoc. reflexivity.
Qed.

Lemma split_lines_first (acc line rest : string) :
  Js.indexOf_nl line = None ->
  split_lines acc (line ++ String Js.nl rest) =
  ((acc ++ line)%string :: fst (split_lines EmptyString rest),
   snd (split_lines EmptyString rest)).
Proof.
  revert acc. induction line as [|c r IH]; intros acc H.
  - cbn [String.append split_lines]. change (Js.ascii_eqb Js.nl Js.nl) with true.
    rewrite append_nil_r. destruct (split_lines EmptyString rest). reflexivity.
  - cbn [Js.indexOf_nl] in H. cbn [String.append split_lines].
    destruct (Js.ascii_eqb c Js.nl); [discriminate H|].
    destruct (Js.indexOf_nl r); [discriminate H|].
    rewrite (IH _ eq_refl), append_assoc. reflexivity.
Qed.

Lemma on_line_blank (line : string) (w : World) :
  blank line = true -> on_line E (Js.trim line) w = (Ret tt, w).
Proof. unfold blank, on_line. intros ->. reflexivity. Qed.

Lemma responses_per_line (n : nat) :
  forall (s : string) (w w' : World) (b : string),
    (String.length s <= n)%nat ->
    on_data E EmptyString s w = (Ret (Some b), w') ->
    b = snd (split_lines EmptyString s) /\
    List.length (stdout w') =
    (List.length (stdout w) +
     List.length (filter (fun l => negb (blank l)) (fst (split_lines EmptyString s))))%nat.
Proof.
  induction n as [|n IH]; intros s w w' b Hn Hrun.
  - destruct s; [|cbn in Hn; lia]. cbn in Hrun. injection Hrun as <- <-.
    split; [reflexivity | cbn; lia].
  - destruct (first_line_cases s) as [Hnone | [line [rest [Hs Hl]]]].
    + rewrite (on_data_no_newline EmptyString s w Hnone) in Hrun.
      injection Hrun as <- <-.
      rewrite (split_lines_no_newline EmptyString s Hnone). split; [reflexivity | cbn; lia].
    + subst s.
      rewrite (on_data_first_line E EmptyString _ line rest w eq_refl Hl) in Hrun.
      rewrite (split_lines_first EmptyString line rest Hl). cbn [fst snd String.append filter].
      assert (Hlen : (String.length rest <= n)%nat).
      { rewrite string_length_app in Hn. cbn [String.length] in Hn. lia. }
      destruct (blank line) eqn:Hb.
      * rewrite (on_line_blank line w Hb) in Hrun.
        destruct (IH rest w w' b Hlen Hrun) as [H1 H2]. split; [exact H1 | exact H2].
      * assert (Hne : Js.trim line <> EmptyString).
        { unfold blank in Hb. destruct (Js.trim line); [discriminate Hb | discriminate]. }
        pose proof (on_line_stdout E (Js.trim line) w Hne) as Hout.
        destruct (on_line E (Js.trim line) w) as [[u|e| |e] w1]; try discriminate Hrun.
        destruct Hout as [v Hv].
        destruct (IH rest w1 w' b Hlen Hrun) as [H1 H2]. split; [exact H1|].
        rewrite H2, Hv, length_app. cbn [negb filter List.length]. lia.
Qed.

(** X1. When the data listener returns, every complete line of the buffer
    that is not blank has been answered with exactly one line on the
    standard output, blank lines with none, and what follows the last
    newline is kept as the new buffer. *)
Theorem on_data_one_response_per_line (buf chunk b : string) (w w' : World) :
  on_data E buf chunk w = (Ret (Some b), w') ->
  b = snd (split_lines EmptyString (buf ++ chunk)) /\
  List.length (stdout w') =
  (List.length (stdout w) +
   List.length (filter (fun l => negb (blank l))
                  (fst (split_lines EmptyString (buf ++ chunk)))))%nat.
Proof.
  intros H. rewrite on_data_append in H.
  exact (responses_per_line _ _ w w' b (le_n _) H).
Qed.

Lemma chunking (n : nat) :
  forall (a c b : string) (w w1 : World),
    (String.length a <= n)%nat ->
    on_data E EmptyString a w = (Ret (Some b), w1) ->
    on_data E b c w1 = on_data E EmptyString (a ++ c) w.
Proof.
  induction n as [|n IH]; intros a c b w w1 Hn Hrun.
  - destruct a; [|cbn in Hn; lia]. cbn in Hrun. injection Hrun as <- <-. reflexivity.
  - destruct (first_line_cases a) as [Hnone | [line [rest [Hs Hl]]]].
    + rewrite (on_data_no_newline EmptyString a w Hnone) in Hrun.
      injection Hrun as <- <-. reflexivity.
    + subst a.
      rewrite (on_data_first_line E EmptyString _ line rest w eq_refl Hl) in Hrun.
      rewrite (on_data_first_line E EmptyString ((line ++ String Js.nl rest) ++ c)
                 line (rest ++ c) w); [| rewrite append_assoc; reflexivity | exact Hl].
      assert (Hlen : (String.length rest <= n)%nat).
      { rewrite string_length_app in Hn. cbn [String.length] in Hn. lia. }
      destruct (on_line E (Js.trim line) w) as [[u|e| |e] w2]; try discriminate Hrun.
      exact (IH rest c b w2 w1 Hlen Hrun).
Qed.

(** X2. Framing does not depend on where the input is cut into chunks:
    delivering [a] and then [c] to the data listener does what delivering
    [a ++ c] at once does. *)
Theorem on_data_chunking (buf a c b : string) (w w1 : World) :
  on_data E buf a w = (Ret (Some b), w1) ->
  on_data E b c w1 = on_data E buf (a ++ c) w.
Proof.
  intros H. rewrite on_data_append in H.
  rewrite (on_data_append buf (a ++ c)), <- append_assoc.
  exact (chunking _ _ c b w w1 (le_n _) H).
Qed.

End Chunks.

(* ====================================================================== *)
(** * The store as the source of truth *)
(* ====================================================================== *)

(** Closes a case where the run has failed without touching the files. *)
Ltac failed H Hrun :=
  injection Hrun as <- <-; left; split; [try rewrite H; try reflexivity; assumption | discriminate].

Section Store.

Variable E : Env.

Lemma keeps_fs_fetchJSON {A} (server : list Event -> Request -> Z * Reply A) (u : string) :
  keeps fs (fetchJSON server u).
Proof. unfold fetchJSON. keep. Qed.

Lemma keeps_fs_getASMetadata (iss : string) : keeps fs (getASMetadata E iss).
Proof. unfold getASMetadata, fetchJSON. keep. Qed.

Lemma getASMetadata_issuer (iss : string) (w w' : World) (a : ASMeta) :
  Js.truthy_str iss = true ->
  getASMetadata E iss w = (Ret a, w') -> Js.truthy_opt (issuer a) = true.
Proof.
  intros Hi. unfold getASMetadata.
  destruct (asWellKnownFromIssuer E iss) as [e|u]; [discriminate|].
  unfold bind at 1.
  destruct (fetchJSON (metadata_server E) u w) as [[json|e| |e] w1]; try discriminate.
  destruct (Js.truthy_opt (issuer json)) eqn:Ht; cbn [negb ret].
  - intros H. injection H as <- _. exact Ht.
  - intros H. injection H as <- _. exact Hi.
Qed.

Lemma truthy_String_of (o : option string) :
  Js.truthy_opt o = true -> Js.truthy_str (Js.String_of o) = true.
Proof. destruct o; [trivial | discriminate]. Qed.

(** What [discover] does on a cache miss: it fails and leaves the files
    alone, or returns a validated document that it has just written. *)
Lemma discover_remote_cases (w w' : World) (o : Outcome ASMeta) :
  discover_remote E w = (o, w') ->
  (fs w' = fs w /\ forall a, o <> Ret a) \/
  (exists a,
     o = Ret a /\
     fs w' = put DISCOVERY_FILE a (fs w) /\
     Js.truthy_opt (issuer a) = true /\
     Js.truthy_opt (authorization_endpoint a) = true /\
     Js.truthy_opt (token_endpoint a) = true).
Proof.
  intros Hrun. unfold discover_remote, bind at 1, getPRM in Hrun.
  pose proof (keeps_fs_fetchJSON (resource_server E)
                (RESOURCE_ORIGIN ++ "/.well-known/oauth-protected-resource") w) as H1.
  destruct (fetchJSON (resource_server E) _ w) as [[prm|e| |e] w1]; cbn [snd] in H1;
    try (failed H1 Hrun).
  cbv zeta in Hrun.
  set (iss := or_else (or_else (first_server prm) (prm_authorization_server prm))
                      (prm_issuer prm)) in Hrun.
  destruct (Js.truthy_opt iss) eqn:Hiss; cbn [negb] in Hrun; [| failed H1 Hrun].
  unfold bind at 1 in Hrun.
  pose proof (keeps_fs_getASMetadata (Js.String_of iss) w1) as H2.
  pose proof (getASMetadata_issuer (Js.String_of iss) w1) as H3.
  destruct (getASMetadata E (Js.String_of iss) w1) as [[a|e| |e] w2]; cbn [snd] in H2;
    rewrite H1 in H2; try (failed H2 Hrun).
  destruct (Js.truthy_opt (authorization_endpoint a)) eqn:Ha; cbn [negb orb] in Hrun;
    [| failed H2 Hrun].
  destruct (Js.truthy_opt (token_endpoint a)) eqn:Ht; cbn [negb] in Hrun;
    [| failed H2 Hrun].
  cbn in Hrun. injection Hrun as <- <-.
  right. exists a. cbn. rewrite H2. repeat split; try assumption.
  apply (H3 w2 a); [apply truthy_String_of; exact Hiss | reflexivity].
Qed.

Lemma discover_eq (w : World) :
  discover E w =
  match as_metadata_json (fs w) with
  | Some c => if Js.truthy_opt (issuer c) then (Ret c, w) else discover_remote E w
  | None => discover_remote E w
  end.
Proof.
  unfold discover, bind, readJSON. cbn [get DISCOVERY_FILE].
  destruct (as_metadata_json (fs w)) as [c|]; [|reflexivity].
  destruct (Js.truthy_opt (issuer c)); reflexivity.
Qed.

Lemma dynamicRegister_eq (a : ASMeta) (w : World) :
  dynamicRegister E a w =
  match client_metadata_json (fs w) with
  | Some c =>
      if strict_eq (client_issuer c) (issuer a) then (Ret c, w) else register_remote E a w
  | None => register_remote E a w
  end.
Proof.
  unfold dynamicRegister, bind, readJSON. cbn [get CLIENT_FILE].
  destruct (client_metadata_json (fs w)) as [c|]; [|reflexivity].
  destruct (strict_eq (client_issuer c) (issuer a)); reflexivity.
Qed.

(** X10. The document that [discover] returns is the one the store holds
    afterwards, its issuer is not empty, the token and client files are
    untouched, and a second [discover] returns the same document without
    any effect. *)
Theorem discover_caches_its_result (w w1 : World) (a : ASMeta) :
  discover E w = (Ret a, w1) ->
  as_metadata_json (fs w1) = Some a /\
  Js.truthy_opt (issuer a) = true /\
  tokens_json (fs w1) = tokens_json (fs w) /\
  client_metadata_json (fs w1) = client_metadata_json (fs w) /\
  discover E w1 = (Ret a, w1).
Proof.
  intros H.
  assert (Hhit : forall w0 d, as_metadata_json (fs w0) = Some d ->
                   Js.truthy_opt (issuer d) = true -> discover E w0 = (Ret d, w0)).
  { intros w0 d Hd Hi. rewrite discover_eq, Hd, Hi. reflexivity. }
  assert (Hmiss : discover_remote E w = (Ret a, w1) ->
                  as_metadata_json (fs w1) = Some a /\
                  Js.truthy_opt (issuer a) = true /\
                  tokens_json (fs w1) = tokens_json (fs w) /\
                  client_metadata_json (fs w1) = client_metadata_json (fs w) /\
                  discover E w1 = (Ret a, w1)).
  { intros Hr. destruct (discover_remote_cases w w1 _ Hr) as [[_ Hn] | [a' [Hr' [Hfs [Hi _]]]]].
    - exfalso. exact (Hn a eq_refl).
    - injection Hr' as <-.
      rewrite Hfs. cbn. repeat split; try exact Hi.
      apply Hhit; [rewrite Hfs; reflexivity | exact Hi]. }
  rewrite discover_eq in H.
  destruct (as_metadata_json (fs w)) as [d|] eqn:Hd; [|exact (Hmiss H)].
  destruct (Js.truthy_opt (issuer d)) eqn:Hi; [|exact (Hmiss H)].
  injection H as <- <-. repeat split; try assumption. apply Hhit; assumption.
Qed.

(** X11. [discover] changes the store only when it succeeds after a cache
    miss, and the document it then writes has a non-empty issuer,
    authorization endpoint and token endpoint. *)
Theorem discover_writes_only_validated (w : World) :
  fs (snd (discover E w)) = fs w \/
  exists a,
    fst (discover E w) = Ret a /\
    fs (snd (discover E w)) = put DISCOVERY_FILE a (fs w) /\
    Js.truthy_opt (issuer a) = true /\
    Js.truthy_opt (authorization_endpoint a) = true /\
    Js.truthy_opt (token_endpoint a) = true.
Proof.
  assert (Hmiss : fs (snd (discover_remote E w)) = fs w \/
                  exists a,
                    fst (discover_remote E w) = Ret a /\
                    fs (snd (discover_remote E w)) = put DISCOVERY_FILE a (fs w) /\
                    Js.truthy_opt (issuer a) = true /\
                    Js.truthy_opt (authorization_endpoint a) = true /\
                    Js.truthy_opt (token_endpoint a) = true).
  { destruct (discover_remote E w) as [o w'] eqn:Hrun. cbn [fst snd].
    destruct (discover_remote_cases w w' o Hrun) as [[H _] | H]; [left; exact H | right; exact H]. }
  rewrite discover_eq.
  destruct (as_metadata_json (fs w)) as [d|]; [|exact Hmiss].
  destruct (Js.truthy_opt (issuer d)); [left; reflexivity | exact Hmiss].
Qed.

Lemma strict_eq_refl (o : option string) : strict_eq o o = true.
Proof. destruct o as [s|]; [apply String.eqb_refl | reflexivity]. Qed.

Lemma strict_eq_eq (a b : option string) : strict_eq a b = true -> a = b.
Proof.
  destruct a as [x|], b as [y|]; cbn; try discriminate; [|reflexivity].
  intros H. apply String.eqb_eq in H. subst. reflexivity.
Qed.

Lemma register_remote_cases (a : ASMeta) (w w' : World) (o : Outcome Client) :
  register_remote E a w = (o, w') ->
  (fs w' = fs w /\ forall c, o <> Ret c) \/
  (exists c, o = Ret c /\ fs w' = put CLIENT_FILE c (fs w) /\ client_issuer c = issuer a).
Proof.
  intros Hrun. unfold register_remote in Hrun.
  destruct (negb (Js.truthy_opt (registration_endpoint a)));
    [failed (@eq_refl bool true) Hrun|].
  unfold bind at 1, fetch in Hrun.
  destruct (registration_server E (trace w) _) as [dt [e| |r]];
    try (failed (@eq_refl bool true) Hrun).
  destruct (negb (ok r)); [failed (@eq_refl bool true) Hrun|].
  unfold bind at 1, res_json in Hrun.
  destruct (json_body r) as [e|reg]; [failed (@eq_refl bool true) Hrun|].
  cbn in Hrun. injection Hrun as <- <-.
  right. eexists. cbn. repeat split.
Qed.

(** X12. The registration that [dynamicRegister] returns is the one the
    store holds afterwards and is bound to the issuer of the metadata it was
    asked for; a second call with the same metadata returns it again without
    any effect. *)
Theorem dynamicRegister_caches_its_result (a : ASMeta) (w w1 : World) (c : Client) :
  dynamicRegister E a w = (Ret c, w1) ->
  client_metadata_json (fs w1) = Some c /\
  client_issuer c = issuer a /\
  dynamicRegister E a w1 = (Ret c, w1).
Proof.
  intros H.
  assert (Hhit : forall w0 d, client_metadata_json (fs w0) = Some d ->
                   client_issuer d = issuer a -> dynamicRegister E a w0 = (Ret d, w0)).
  { intros w0 d Hd Hi. rewrite dynamicRegister_eq, Hd, Hi, strict_eq_refl. reflexivity. }
  assert (Hmiss : register_remote E a w = (Ret c, w1) ->
                  client_metadata_json (fs w1) = Some c /\
                  client_issuer c = issuer a /\
                  dynamicRegister E a w1 = (Ret c, w1)).
  { intros Hr. destruct (register_remote_cases a w w1 _ Hr) as [[_ Hn] | [c' [Hr' [Hfs Hi]]]].
    - exfalso. exact (Hn c eq_refl).
    - injection Hr' as <-.
      assert (Hc : client_metadata_json (fs w1) = Some c) by (rewrite Hfs; reflexivity).
      repeat split; try assumption. apply Hhit; assumption. }
  rewrite dynamicRegister_eq in H.
  destruct (client_metadata_json (fs w)) as [d|] eqn:Hd; [|exact (Hmiss H)].
  destruct (strict_eq (client_issuer d) (issuer a)) eqn:Hi; [|exact (Hmiss H)].
  injection H as <- <-. apply strict_eq_eq in Hi.
  repeat split; try assumption. apply Hhit; assumption.
Qed.

(** X13. A registration that fails, for whatever reason, leaves the three
    files of the store as they were. *)
Theorem dynamicRegister_failure_keeps_store (a : ASMeta) (w : World) :
  (forall c, fst (dynamicRegister E a w) <> Ret c) ->
  fs (snd (dynamicRegister E a w)) = fs w.
Proof.
  rewrite dynamicRegister_eq.
  assert (Hmiss : (forall c, fst (register_remote E a w) <> Ret c) ->
                  fs (snd (register_remote E a w)) = fs w).
  { intros Hn. destruct (register_remote E a w) as [o w'] eqn:Hrun. cbn [fst snd] in *.
    destruct (register_remote_cases a w w' o Hrun) as [[H _] | [c [Hr _]]]; [exact H|].
    exfalso. exact (Hn c Hr). }
  destruct (client_metadata_json (fs w)) as [d|]; [|exact Hmiss].
  destruct (strict_eq (client_issuer d) (issuer a)); [reflexivity | exact Hmiss].
Qed.

End Store.

Section TokenStore.

Variable E : Env.

(** What [fetchToken] does: it fails and leaves the files alone, or returns
    the stamped record that it has just written. *)
Lemma fetchToken_cases (a : ASMeta) (c : Client) (p : list (string * string))
  (w w' : World) (o : Outcome Token) :
  fetchToken E a c p w = (o, w') ->
  (fs w' = fs w /\ forall t, o <> Ret t) \/
  (exists tok,
     o = Ret tok /\
     fs w' = put TOKENS_FILE tok (fs w) /\
     expires_at tok = stamp E (clock w' / 1000) tok).
Proof.
  intros Hrun. unfold fetchToken, bind at 1, fetch in Hrun.
  destruct (token_server E (trace w) _) as [dt [e| |r]];
    try (failed (@eq_refl bool true) Hrun).
  destruct (negb (ok r)); [failed (@eq_refl bool true) Hrun|].
  unfold bind at 1, res_json in Hrun.
  destruct (json_body r) as [e|answer]; [failed (@eq_refl bool true) Hrun|].
  cbn in Hrun. injection Hrun as <- <-.
  right. eexists. split; [reflexivity|]. split; reflexivity.
Qed.

Lemma keeps_fs_serve (state : string) (inbound : list (Z * option CallbackURL)) :
  keeps fs (serve state inbound).
Proof.
  induction inbound as [|[dt rq] rest IH]; cbn [serve]; [intros w; reflexivity|].
  unfold on_request. keep; apply IH.
Qed.

Lemma interactiveLogin_cases (conf : ASMeta) (c : Client) (w w' : World)
  (o : Outcome Token) :
  interactiveLogin E conf c w = (o, w') ->
  (fs w' = fs w /\ forall t, o <> Ret t) \/
  (exists tok, o = Ret tok /\ fs w' = put TOKENS_FILE tok (fs w)).
Proof.
  intros Hrun. unfold interactiveLogin, bind at 1, random_bytes in Hrun.
  unfold bind at 1 in Hrun.
  destruct (URL_parse E (Js.String_of (authorization_endpoint conf)));
    [| failed (@eq_refl bool true) Hrun].
  unfold bind at 1, listen in Hrun. cbn [listener clock drawn] in Hrun.
  destruct (port_busy (listener w) (clock w)); [failed (@eq_refl bool true) Hrun|].
  unfold bind at 1 in Hrun. unfold bind at 1 in Hrun.
  match type of Hrun with
  | context [serve ?s ?l ?w0] =>
      pose proof (keeps_fs_serve s l w0) as Hs;
      destruct (serve s l w0) as [[code|e| |e] w1]
  end; cbn [snd fs emit set_listener drawn] in Hs; try (failed Hs Hrun).
  destruct (fetchToken_cases _ _ _ _ _ _ Hrun) as [[Hf Hn] | [tok [Ho [Hf _]]]].
  - left. split; [rewrite Hf; exact Hs | exact Hn].
  - right. exists tok. split; [exact Ho | rewrite Hf, Hs; reflexivity].
Qed.

Lemma ensureToken_eq (a : ASMeta) (c : Client) (w : World) :
  ensureToken E a c w =
  match tokens_json (fs w) with
  | Some t =>
      if fresh t (clock w / 1000) then (Ret t, w)
      else if Js.truthy_opt (refresh_token t) then
        match fetchToken E a c [("grant_type", "refresh_token");
                                ("refresh_token", Js.String_of (refresh_token t))] w with
        | (Throw e, w1) => interactiveLogin E a c (emit (refresh_failed e) w1)
        | out => out
        end
      else interactiveLogin E a c w
  | None => interactiveLogin E a c w
  end.
Proof.
  unfold ensureToken, now_seconds, bind, readJSON, Date_now, ret. cbn [get TOKENS_FILE].
  destruct (tokens_json (fs w)) as [t|]; [|reflexivity].
  destruct (fresh t (clock w / 1000)); [reflexivity|].
  destruct (Js.truthy_opt (refresh_token t)); [|reflexivity].
  unfold try_catch.
  destruct (fetchToken E a c _ w) as [[tok|e| |e] w1]; reflexivity.
Qed.

Lemma ensureToken_cases (a : ASMeta) (c : Client) (w w' : World) (o : Outcome Token) :
  ensureToken E a c w = (o, w') ->
  (fs w' = fs w /\ forall t, o = Ret t -> tokens_json (fs w) = Some t) \/
  (exists tok, o = Ret tok /\ fs w' = put TOKENS_FILE tok (fs w)).
Proof.
  intros Hrun.
  assert (Hlogin : forall w0, fs w0 = fs w -> interactiveLogin E a c w0 = (o, w') ->
            (fs w' = fs w /\ forall t, o = Ret t -> tokens_json (fs w) = Some t) \/
            (exists tok, o = Ret tok /\ fs w' = put TOKENS_FILE tok (fs w))).
  { intros w0 H0 Hl. destruct (interactiveLogin_cases _ _ _ _ _ Hl) as [[Hf Hn] | [tok [Ho Hf]]].
    - left. split; [rewrite Hf; exact H0|]. intros t Ht. exfalso. exact (Hn t Ht).
    - right. exists tok. split; [exact Ho | rewrite Hf, H0; reflexivity]. }
  rewrite ensureToken_eq in Hrun.
  destruct (tokens_json (fs w)) as [t|] eqn:Ht; [|exact (Hlogin w eq_refl Hrun)].
  destruct (fresh t (clock w / 1000)).
  { injection Hrun as <- <-. left. split; [reflexivity|]. intros t' H. injection H as <-.
    reflexivity. }
  destruct (Js.truthy_opt (refresh_token t)); [|exact (Hlogin w eq_refl Hrun)].
  match type of Hrun with
  | context [fetchToken E a c ?p w] =>
      pose proof (fetchToken_cases a c p w) as Hf;
      destruct (fetchToken E a c p w) as [[tok|e| |e] w1]
  end; destruct (Hf _ _ eq_refl) as [[Hfs Hn] | [tok' [Ho [Hfs _]]]]; try discriminate Ho.
  - exfalso. exact (Hn tok eq_refl).
  - injection Ho as <-. injection Hrun as <- <-. right. exists tok.
    split; [reflexivity | exact Hfs].
  - refine (Hlogin _ _ Hrun). cbn. exact Hfs.
  - injection Hrun as <- <-. left. split; [exact Hfs | discriminate].
  - injection Hrun as <- <-. left. split; [exact Hfs | discriminate].
Qed.

(** X14. The token record that [ensureToken] returns is the record the
    token store holds afterwards, whether it was reused, refreshed or
    obtained by login; the discovery and client files are untouched. *)
Theorem ensureToken_result_is_stored (a : ASMeta) (c : Client) (w w' : World) (tok : Token) :
  ensureToken E a c w = (Ret tok, w') ->
  tokens_json (fs w') = Some tok /\
  as_metadata_json (fs w') = as_metadata_json (fs w) /\
  client_metadata_json (fs w') = client_metadata_json (fs w).
Proof.
  intros H. destruct (ensureToken_cases _ _ _ _ _ H) as [[Hf Hs] | [tok' [Ho Hf]]].
  - rewrite Hf. repeat split. exact (Hs tok eq_refl).
  - injection Ho as <-. rewrite Hf. repeat split.
Qed.

(** X15. A record that [fetchToken] has just stored, answered with a numeric
    [expires_in] or none, is reused by the next [ensureToken] exactly when
    its lifetime exceeds 90 seconds (the 30-second stamp margin plus the
    60-second freshness margin): with a longer lifetime an immediate
    [ensureToken] returns it without any effect, with a shorter one the
    record is already stale.  (The sum and the stamp are taken in the range
    where doubles are exact integers.) *)
Theorem fetched_token_reuse_threshold (a : ASMeta) (c : Client) (p : list (string * string))
  (w w' : World) (tok : Token) :
  fetchToken E a c p w = (Ret tok, w') ->
  numeric_lifetime tok = true ->
  exact_integer (clock w' / 1000 + declared_lifetime tok) ->
  exact_integer (clock w' / 1000 + declared_lifetime tok - 30) ->
  fresh tok (clock w' / 1000) = (90 <? declared_lifetime tok) /\
  (90 < declared_lifetime tok -> ensureToken E a c w' = (Ret tok, w')).
Proof.
  intros H Hn H1 H2.
  destruct (fetchToken_cases _ _ _ _ _ _ H) as [[_ Hno] | [tok' [Ho [Hf He]]]].
  - exfalso. exact (Hno tok eq_refl).
  - injection Ho as <-. rewrite (stamp_numeric E _ tok Hn H1 H2) in He.
    assert (Hfresh : fresh tok (clock w' / 1000) = (90 <? declared_lifetime tok)).
    { unfold fresh. rewrite He.
      destruct (Z.ltb_spec (clock w' / 1000 + 60)
                  (clock w' / 1000 + declared_lifetime tok - 30));
        destruct (Z.ltb_spec 90 (declared_lifetime tok)); try reflexivity; lia. }
    split; [exact Hfresh|]. intros Hlt.
    apply (ensureToken_fast_path_eq E a c w' tok
             (clock w' / 1000 + declared_lifetime tok - 30));
      [rewrite Hf; reflexivity | exact He | lia].
Qed.

End TokenStore.

(* ====================================================================== *)
(** * Where the bearer token goes *)
(* ====================================================================== *)

Create HintDb emits.

Section Emits.

Variable P : Event -> Prop.

Lemma emits_nothing {A} (m : M A) : keeps trace m -> emits P m.
Proof. intros H w. exists []. rewrite (H w), app_nil_r. split; [reflexivity | constructor]. Qed.

Lemma emits_ret {A} (a : A) : emits P (ret a).
Proof. apply emits_nothing. intros w. reflexivity. Qed.

Lemma emits_throw {A} (e : string) : emits P (@throw A e).
Proof. apply emits_nothing. intros w. reflexivity. Qed.

Lemma emits_bind {A B} (m : M A) (k : A -> M B) :
  emits P m -> (forall a, emits P (k a)) -> emits P (bind m k).
Proof.
  intros Hm Hk w. unfold bind.
  destruct (Hm w) as [l [Hl Hp]]. destruct (m w) as [[a|e| |e] w1]; cbn [snd] in Hl;
    try (exists l; split; assumption).
  destruct (Hk a w1) as [l' [Hl' Hp']]. exists (l ++ l')%list. split.
  - rewrite Hl', Hl, app_assoc. reflexivity.
  - apply Forall_app. split; assumption.
Qed.

Lemma emits_try_catch {A} (m : M A) (h : string -> M A) :
  emits P m -> (forall e, emits P (h e)) -> emits P (try_catch m h).
Proof.
  intros Hm Hh w. unfold try_catch.
  destruct (Hm w) as [l [Hl Hp]]. destruct (m w) as [[a|e| |e] w1]; cbn [snd] in Hl;
    try (exists l; split; assumption).
  destruct (Hh e w1) as [l' [Hl' Hp']]. exists (l ++ l')%list. split.
  - rewrite Hl', Hl, app_assoc. reflexivity.
  - apply Forall_app. split; assumption.
Qed.

Lemma emits_emit (e : Event) : P e -> emits P (modify (emit e)).
Proof. intros H w. exists [e]. split; [reflexivity | constructor; [exact H | constructor]]. Qed.

Lemma emits_modify (f : World -> World) :
  (forall w, trace (f w) = trace w) -> emits P (modify f).
Proof. intros H. apply emits_nothing. intros w. exact (H w). Qed.

Lemma emits_fetch {A} (server : list Event -> Request -> Z * Reply A) (rq : Request) :
  P (EvFetch rq) -> emits P (fetch server rq).
Proof.
  intros H w. unfold fetch. destruct (server (trace w) rq) as [dt [e| |r]];
    exists [EvFetch rq]; (split; [reflexivity | constructor; [exact H | constructor]]).
Qed.

Lemma emits_res_json {A} (r : Response A) : emits P (res_json r).
Proof. unfold res_json. destruct (json_body r); [apply emits_throw | apply emits_ret]. Qed.

End Emits.

#[local] Hint Resolve emits_ret emits_throw emits_res_json : emits.

Ltac emit_steps :=
  repeat first
    [ progress auto with emits
    | apply emits_bind; [| intros ?]
    | apply emits_try_catch; [| intros ?]
    | apply emits_fetch; reflexivity
    | apply emits_emit; reflexivity
    | apply emits_modify; intros; reflexivity
    | apply emits_nothing; intros ?; reflexivity
    | match goal with |- emits _ (if ?b then _ else _) => destruct b end
    | match goal with |- emits _ (match ?x with _ => _ end) => destruct x end ].

Section Bearer.

Variable E : Env.

Let silent (e : Event) : Prop := carries_bearer e = false.

Lemma silent_discover : emits silent (discover E).
Proof.
  unfold discover, discover_remote, getPRM, getASMetadata, fetchJSON, writeJSON, readJSON.
  emit_steps.
Qed.

Lemma silent_ensureClient (a : ASMeta) : emits silent (ensureClient E a).
Proof.
  unfold ensureClient, dynamicRegister, register_remote, writeJSON, readJSON. emit_steps.
Qed.

Lemma silent_fetchToken a c p : emits silent (fetchToken E a c p).
Proof. unfold fetchToken, writeJSON, now_seconds, Date_now. emit_steps. Qed.

Lemma silent_serve state inbound : emits silent (serve state inbound).
Proof.
  induction inbound as [|[dt rq] rest IH]; cbn [serve];
    [apply emits_nothing; intros w; reflexivity|].
  unfold on_request, Date_now. emit_steps; apply IH.
Qed.

Lemma silent_interactiveLogin conf c : emits silent (interactiveLogin E conf c).
Proof.
  unfold interactiveLogin, random_bytes.
  apply emits_bind; [apply emits_nothing; intros w; reflexivity | intros r32].
  apply emits_bind; [apply emits_nothing; intros w; reflexivity | intros r16].
  destruct (URL_parse E (Js.String_of (authorization_endpoint conf))); [|apply emits_throw].
  apply emits_bind.
  { intros w. unfold listen. destruct (port_busy (listener w) (clock w)).
    - exists []. cbn. rewrite app_nil_r. split; [reflexivity | constructor].
    - eexists [EvListen 38573; EvOpenBrowser _]. cbn. rewrite <- app_assoc.
      split; [reflexivity | repeat constructor]. }
  intros _. apply emits_bind; [apply emits_nothing; intros w; reflexivity | intros inbound].
  apply emits_bind; [apply silent_serve | intros code].
  apply silent_fetchToken.
Qed.

Lemma silent_ensureToken a c : emits silent (ensureToken E a c).
Proof.
  unfold ensureToken, console_error, now_seconds, Date_now, readJSON.
  pose proof (silent_interactiveLogin a c).
  pose proof (fun p => silent_fetchToken a c p).
  emit_steps.
Qed.

Lemma forward_trace (j : json) (t : string) (w : World) :
  trace (snd (forwardJsonRpcToRemote E j t w)) =
  (trace w ++ [EvFetch (forward_request j t)])%list.
Proof.
  unfold forwardJsonRpcToRemote, bind, fetch. fold (forward_request j t).
  destruct (remote_mcp E (trace w) (forward_request j t)) as [dt [e| |r]]; try reflexivity.
  destruct (status r =? 401); [reflexivity|].
  destruct (negb (ok r)); [reflexivity|].
  unfold res_json. destruct (json_body r); reflexivity.
Qed.

Lemma silent_forwards (n : nat) (j : json) (l : list Event) :
  Forall silent l -> forwards_at_most n j l.
Proof.
  intros H. split.
  - induction H as [|e l He _ IH]; [cbn; lia|]. cbn [filter]. rewrite He. exact IH.
  - eapply Forall_impl; [|exact H]. intros e He Hc. unfold silent in He.
    rewrite He in Hc. discriminate Hc.
Qed.

Lemma forwards_app (n m : nat) (j : json) (l l' : list Event) :
  forwards_at_most n j l -> forwards_at_most m j l' -> forwards_at_most (n + m) j (l ++ l').
Proof.
  intros [H1 H2] [H3 H4]. split.
  - rewrite filter_app, length_app. lia.
  - apply Forall_app. split; assumption.
Qed.

Lemma forwards_one (j : json) (t : string) :
  forwards_at_most 1 j [EvFetch (forward_request j t)].
Proof.
  split; [cbn; lia|]. constructor; [|constructor]. intros _. exists t. reflexivity.
Qed.

Lemma forwards_weaken (n m : nat) (j : json) (l : list Event) :
  (n <= m)%nat -> forwards_at_most n j l -> forwards_at_most m j l.
Proof. intros Hle [H1 H2]. split; [lia | exact H2]. Qed.

(** X9. While it handles a request [j], the relay sends a bearer token at
    most twice, and only in forwards of [j] to the configured remote
    endpoint: discovery, registration, the token endpoint and the callback
    listener never see an [Authorization] header. *)
Theorem handleRequest_bearer_only_to_remote (j : json) (w : World) :
  exists l,
    trace (snd (handleRequest E j w)) = (trace w ++ l)%list /\
    forwards_at_most 2 j l.
Proof.
  unfold handleRequest, bind at 1.
  destruct (silent_discover w) as [l1 [H1 S1]].
  apply (silent_forwards 0 j) in S1.
  destruct (discover E w) as [[a|e| |e] w1]; cbn [snd] in *;
    try (exists l1; split; [exact H1 | apply (forwards_weaken 0); [lia | exact S1]]).
  unfold bind at 1.
  destruct (silent_ensureClient a w1) as [l2 [H2 S2]].
  apply (silent_forwards 0 j) in S2.
  rewrite H1 in H2. rewrite <- app_assoc in H2.
  pose proof (forwards_app 0 0 j l1 l2 S1 S2) as S12. clear H1 S1 S2.
  destruct (ensureClient E a w1) as [[c|e| |e] w2]; cbn [snd] in *;
    try (eexists; split; [exact H2 | apply (forwards_weaken 0); [lia | exact S12]]).
  unfold bind at 1.
  destruct (silent_ensureToken a c w2) as [l3 [H3 S3]].
  apply (silent_forwards 0 j) in S3.
  rewrite H2 in H3. rewrite <- app_assoc in H3.
  pose proof (forwards_app 0 0 j _ l3 S12 S3) as S. clear H2 S12 S3.
  destruct (ensureToken E a c w2) as [[tok|e| |e] w3]; cbn [snd] in *;
    try (eexists; split; [exact H3 | apply (forwards_weaken 0); [lia | exact S]]).
  unfold try_catch.
  pose proof (forward_trace j (access_token tok) w3) as F1.
  rewrite H3 in F1. rewrite <- app_assoc in F1.
  pose proof (forwards_app 0 1 j _ _ S (forwards_one j (access_token tok))) as S1.
  clear H3 S.
  destruct (forwardJsonRpcToRemote E j (access_token tok) w3) as [[v|e| |e] w4];
    cbn [snd] in *;
    try (eexists; split; [exact F1 | apply (forwards_weaken 1); [lia | exact S1]]).
  destruct (String.eqb e "UNAUTHORIZED").
  - unfold bind at 1.
    destruct (silent_ensureToken a c w4) as [l4 [H4 S4]].
    apply (silent_forwards 0 j) in S4.
    rewrite F1 in H4. rewrite <- app_assoc in H4.
    pose proof (forwards_app 1 0 j _ l4 S1 S4) as S2. clear F1 S1 S4.
    destruct (ensureToken E a c w4) as [[tok'|e'| |e'] w5]; cbn [snd] in *;
      try (eexists; split; [exact H4 | apply (forwards_weaken 1); [lia | exact S2]]).
    pose proof (forward_trace j (access_token tok') w5) as F2.
    rewrite H4 in F2. rewrite <- app_assoc in F2.
    eexists. split; [exact F2|].
    exact (forwards_app 1 1 j _ _ S2 (forwards_one j (access_token tok'))).
  - eexists. split; [|apply (forwards_weaken 1); [lia | exact S1]].
    unfold error_response. destruct (Json.get_id j); exact F1.
Qed.

End Bearer.

(* ====================================================================== *)
(** * Outcomes of a relayed request *)
(* ====================================================================== *)

Section Outcomes.

Variable E : Env.

Lemma forward_eq (j : json) (t : string) (w : World) :
  forwardJsonRpcToRemote E j t w =
  match remote_mcp E (trace w) (forward_request j t) with
  | (dt, Rejected e) => (Throw e, forwarded j t dt w)
  | (dt, Pending) => (Hang, forwarded j t dt w)
  | (dt, Fulfilled r) =>
      if negb (ok r) || (status r =? 401) then (Throw (remote_error r), forwarded j t dt w)
      else match json_body r with
           | inr v => (Ret v, forwarded j t dt w)
           | inl e => (Throw e, forwarded j t dt w)
           end
  end.
Proof.
  unfold forwardJsonRpcToRemote, bind, fetch, remote_error, forwarded.
  fold (forward_request j t).
  destruct (remote_mcp E (trace w) (forward_request j t)) as [dt [e| |r]]; try reflexivity.
  destruct (status r =? 401); [rewrite orb_true_r; reflexivity|].
  rewrite orb_false_r. destruct (negb (ok r)); [reflexivity|].
  unfold res_json. destruct (json_body r); reflexivity.
Qed.

Lemma handleRequest_eq (j : json) (w w1 w2 w3 : World) (a : ASMeta) (c : Client)
  (tok : Token) :
  discover E w = (Ret a, w1) ->
  ensureClient E a w1 = (Ret c, w2) ->
  ensureToken E a c w2 = (Ret tok, w3) ->
  handleRequest E j w =
  match forwardJsonRpcToRemote E j (access_token tok) w3 with
  | (Throw e, w4) =>
      if String.eqb e "UNAUTHORIZED" then
        match ensureToken E a c w4 with
        | (Ret tok', w5) => forwardJsonRpcToRemote E j (access_token tok') w5
        | (Throw x, w5) => (Throw x, w5)
        | (Hang, w5) => (Hang, w5)
        | (Crash x, w5) => (Crash x, w5)
        end
      else error_response j (-32001) e w4
  | out => out
  end.
Proof.
  intros Hd Hc Ht. unfold handleRequest, bind at 1. rewrite Hd.
  unfold bind at 1. rewrite Hc. unfold bind at 1. rewrite Ht.
  unfold try_catch.
  destruct (forwardJsonRpcToRemote E j (access_token tok) w3) as [[v|e| |e] w4];
    try reflexivity.
  destruct (String.eqb e "UNAUTHORIZED"); [|reflexivity].
  unfold bind. destruct (ensureToken E a c w4) as [[tok'|x| |x] w5]; reflexivity.
Qed.

Lemma remote_error_retry (r : Response json) :
  String.eqb (remote_error r) "UNAUTHORIZED" = (status r =? 401).
Proof. unfold remote_error. destruct (status r =? 401); reflexivity. Qed.

(** X6. When the remote endpoint answers the first forward with a
    non-success status other than 401, the request [j] (any JSON value but
    [null]) is answered with an error of code -32001 that carries the
    status and the body of the remote's answer and the request's id; there
    is no retry and no second token acquisition. *)
Theorem remote_failure_is_answered (j : json) (id : option json) (w w1 w2 w3 : World)
  (a : ASMeta) (c : Client) (tok : Token) (dt : Z) (r : Response json) :
  discover E w = (Ret a, w1) ->
  ensureClient E a w1 = (Ret c, w2) ->
  ensureToken E a c w2 = (Ret tok, w3) ->
  remote_mcp E (trace w3) (forward_request j (access_token tok)) = (dt, Fulfilled r) ->
  ok r = false ->
  status r <> 401 ->
  Json.get_id j = inr id ->
  handleRequest E j w =
  (Ret (Json.rpc_error (Json.nullish id) (-32001)
          ("[remote] " ++ Js.string_of_Z (status r) ++ ": " ++ text r)),
   forwarded j (access_token tok) dt w3).
Proof.
  intros Hd Hc Ht Hr Hok Hs Hid.
  rewrite (handleRequest_eq j w w1 w2 w3 a c tok Hd Hc Ht), forward_eq, Hr, Hok.
  cbn [negb orb]. rewrite remote_error_retry.
  apply Z.eqb_neq in Hs. unfold remote_error. rewrite Hs.
  unfold error_response. rewrite Hid. reflexivity.
Qed.


(** X5. When the remote endpoint answers the first forward with a success
    status and a JSON body, the line written for the request is that body,
    serialized again, and nothing else is done. *)
Theorem success_is_relayed (line : string) (j v : json) (w w1 w2 w3 : World)
  (a : ASMeta) (c : Client) (tok : Token) (dt : Z) (r : Response json) :
  line <> EmptyString ->
  JSON_parse E line = Some j ->
  discover E w = (Ret a, w1) ->
  ensureClient E a w1 = (Ret c, w2) ->
  ensureToken E a c w2 = (Ret tok, w3) ->
  remote_mcp E (trace w3) (forward_request j (access_token tok)) = (dt, Fulfilled r) ->
  ok r = true ->
  json_body r = inr v ->
  on_line E line w =
  (Ret tt, print (json_line v) (forwarded j (access_token tok) dt w3)).
Proof.
  intros Hne Hp Hd Hc Ht Hr Hok Hv.
  unfold on_line. destruct line as [|x s]; [contradiction Hne; reflexivity|].
  cbn [Js.truthy_str negb]. rewrite Hp.
  unfold try_catch, bind at 1.
  rewrite (handleRequest_eq j w w1 w2 w3 a c tok Hd Hc Ht), forward_eq, Hr, Hok.
  assert (Hs : (status r =? 401) = false).
  { unfold ok in Hok. apply andb_true_iff in Hok. destruct Hok as [_ H].
    apply Z.leb_le in H. apply Z.eqb_neq. lia. }
  rewrite Hs. cbn [negb orb]. rewrite Hv. reflexivity.
Qed.


End Outcomes.

(* ====================================================================== *)
(** * Shape of the PKCE values *)
(* ====================================================================== *)

Section Shape.

Lemma digit_url_safe (i : Z) :
  0 <= i < 64 -> url_safe (Buf.digit Buf.url_alphabet i) = true.
Proof.
  intros H.
  apply (forall_range (fun i => url_safe (Buf.digit Buf.url_alphabet i)) 64);
    [vm_compute; reflexivity | lia].
Qed.

Lemma base64url_nopad_url_safe (l : list byte) :
  all_of url_safe (Buf.base64url_nopad l) = true.
Proof.
  induction l as [|a|a b|a b c r IH] using list_ind3;
    cbn [Buf.base64url_nopad all_of]; try reflexivity;
    pose proof (byte_val_range a) as Ha;
    try pose proof (byte_val_range b) as Hb;
    try pose proof (byte_val_range c) as Hc;
    repeat (rewrite digit_url_safe by (Z.div_mod_to_equations; lia));
    try rewrite IH; reflexivity.
Qed.

Lemma base64url_nopad_length (l : list byte) :
  String.length (Buf.base64url_nopad l) = Nat.div (4 * List.length l + 2) 3.
Proof.
  induction l as [|a|a b|a b c r IH] using list_ind3;
    cbn [Buf.base64url_nopad String.length List.length]; try reflexivity.
  rewrite IH.
  replace (4 * S (S (S (List.length r))) + 2)%nat
    with (4 * 3 + (4 * List.length r + 2))%nat by lia.
  rewrite (Nat.div_add_l 4 3) by lia. reflexivity.
Qed.

Lemma compress_length (h block : list Z) :
  List.length h = 8%nat -> List.length (Sha256.compress h block) = 8%nat.
Proof.
  intros H. unfold Sha256.compress.
  rewrite length_map, length_combine, H. reflexivity.
Qed.

Lemma digest_length (m : list byte) : List.length (Sha256.digest m) = 32%nat.
Proof.
  unfold Sha256.digest. rewrite length_map.
  set (bs := Sha256.blocks _ _).
  assert (H : List.length (fold_left Sha256.compress bs Sha256.H0) = 8%nat).
  { assert (H0 : List.length Sha256.H0 = 8%nat) by (vm_compute; reflexivity).
    revert H0. generalize Sha256.H0. induction bs as [|b bs IH]; intros h Hh; [exact Hh|].
    cbn [fold_left]. apply IH. apply compress_length. exact Hh. }
  destruct (fold_left Sha256.compress bs Sha256.H0)
    as [|x0 [|x1 [|x2 [|x3 [|x4 [|x5 [|x6 [|x7 [|x8 t]]]]]]]]]; try discriminate H.
  reflexivity.
Qed.

(** X16. For 32 random octets, the code verifier has 43 characters, and so
    has the code challenge whatever the input; both consist of letters,
    digits, [-] and [_] only. *)
Theorem pkce_pair_shape (random32 : list byte) :
  List.length random32 = 32%nat ->
  String.length (code_verifier (genPKCE random32)) = 43%nat /\
  all_of url_safe (code_verifier (genPKCE random32)) = true /\
  String.length (code_challenge (genPKCE random32)) = 43%nat /\
  all_of url_safe (code_challenge (genPKCE random32)) = true.
Proof.
  intros H. unfold genPKCE. cbn [code_verifier code_challenge].
  rewrite !b64url_base64url_nopad, !base64url_nopad_length, !base64url_nopad_url_safe.
  rewrite H, digest_length. repeat split.
Qed.

End Shape.

(* ====================================================================== *)
(** * The callback listener, requests accepted *)
(* ====================================================================== *)

Section Callback.

Variable E : Env.

Lemma on_request_resolve (state : string) (rq : option CallbackURL) (w w' : World)
  (code : string) :
  on_request state rq w = (Ret (Resolve code), w') ->
  (exists u,
     rq = Some u /\ cb_pathname u = "/callback" /\ cb_code u = Some code /\
     code <> EmptyString /\ cb_state u = Some state) /\
  listener w' = Bound (Some (clock w' + 100)).
Proof.
  unfold on_request. destruct rq as [u|]; [|discriminate].
  destruct (String.eqb_spec (cb_pathname u) "/callback") as [Hp|]; cbn [negb]; [|discriminate].
  destruct (cb_code u) as [k|] eqn:Hk; cbn [Js.truthy_opt]; [|discriminate].
  destruct k as [|x s]; cbn [Js.truthy_str negb orb]; [discriminate|].
  destruct (strict_eq (cb_state u) (Some state)) eqn:Hs; cbn [negb]; [|discriminate].
  cbn. intros H. injection H as <- <-. split; [|reflexivity].
  exists u. repeat split; try assumption; try discriminate.
  apply strict_eq_eq. exact Hs.
Qed.

(** X17. The pending login resolves with a code only if that code, not
    empty, came in a request on [/callback] whose [state] is exactly the
    generated one; and by then the close of the listener is scheduled for
    100 ms later. *)
Theorem serve_resolves_only_on_matching_state (state : string)
  (inbound : list (Z * option CallbackURL)) (w w' : World) (code : string) :
  serve state inbound w = (Ret code, w') ->
  (exists dt u,
     In (dt, Some u) inbound /\ cb_pathname u = "/callback" /\
     cb_code u = Some code /\ code <> EmptyString /\ cb_state u = Some state) /\
  listener w' = Bound (Some (clock w' + 100)).
Proof.
  revert w. induction inbound as [|[dt rq] rest IH]; intros w; cbn [serve]; [discriminate|].
  unfold bind at 1. cbn [modify]. unfold bind at 1.
  destruct (on_request state rq (tick dt w)) as [[s|e| |e] w1] eqn:Hq; try discriminate.
  destruct s as [|k|msg]; try discriminate.
  - intros H. destruct (IH _ H) as [[dt' [u [Hin Hu]]] Hl]. split; [|exact Hl].
    exists dt', u. split; [right; exact Hin | exact Hu].
  - cbn. intros H. injection H as <- <-.
    destruct (on_request_resolve _ _ _ _ _ Hq) as [[u [-> Hu]] Hl]. split; [|exact Hl].
    exists dt, u. split; [left; reflexivity | exact Hu].
Qed.

Lemma serve_resolved_listener (state : string) (inbound : list (Z * option CallbackURL))
  (w w' : World) (code : string) :
  serve state inbound w = (Ret code, w') -> listener w' = Bound (Some (clock w' + 100)).
Proof.
  revert w. induction inbound as [|[dt rq] rest IH]; intros w; cbn [serve]; [discriminate|].
  unfold bind at 1. cbn [modify]. unfold bind at 1.
  destruct (on_request state rq (tick dt w)) as [[s|e| |e] w1] eqn:Hq; try discriminate.
  destruct s as [|k|msg]; try discriminate.
  - apply IH.
  - cbn. intros H. injection H as <- <-.
    exact (proj2 (on_request_resolve _ _ _ _ _ Hq)).
Qed.

Lemma keeps_listener_fetchToken a c p : keeps listener (fetchToken E a c p).
Proof. unfold fetchToken, writeJSON. keep. Qed.

(** X18. Every interactive login that completes has scheduled the close of
    its listener. *)
Theorem completed_login_closes_listener (conf : ASMeta) (c : Client) (w w' : World)
  (tok : Token) :
  interactiveLogin E conf c w = (Ret tok, w') ->
  exists t, listener w' = Bound (Some t).
Proof.
  intros Hrun. unfold interactiveLogin, bind at 1, random_bytes in Hrun.
  unfold bind at 1 in Hrun.
  destruct (URL_parse E (Js.String_of (authorization_endpoint conf))); [|discriminate].
  unfold bind at 1, listen in Hrun. cbn [listener clock drawn] in Hrun.
  destruct (port_busy (listener w) (clock w)); [discriminate|].
  unfold bind at 1 in Hrun. unfold bind at 1 in Hrun.
  match type of Hrun with
  | context [serve ?s ?l ?w0] =>
      pose proof (serve_resolved_listener s l w0) as Hs;
      destruct (serve s l w0) as [[code|e| |e] w1]
  end; try discriminate.
  match type of Hrun with
  | fetchToken E ?a ?c ?p ?w0 = _ => pose proof (keeps_listener_fetchToken a c p w0) as Hk
  end.
  rewrite Hrun in Hk. cbn [snd] in Hk. rewrite Hk.
  eexists. exact (Hs _ _ eq_refl).
Qed.

End Callback.

(* ====================================================================== *)
(** * Trailing slashes of the issuer *)
(* ====================================================================== *)

Lemma drop_trailing_slash_app (s : string) :
  Js.drop_trailing (Js.ascii_eqb "/"%char) (s ++ "/") =
  Js.drop_trailing (Js.ascii_eqb "/"%char) s.
Proof.
  induction s as [|c r IH]; [reflexivity|].
  cbn [String.append Js.drop_trailing]. rewrite IH. reflexivity.
Qed.

(** X19. Two issuers that differ only by one more trailing slash in their
    path have the same metadata URL. *)
Theorem asWellKnownFromIssuer_ignores_trailing_slash (E : Env) (i1 i2 : string) (u1 u2 : URL) :
  URL_parse E i1 = Some u1 ->
  URL_parse E i2 = Some u2 ->
  protocol u2 = protocol u1 ->
  host u2 = host u1 ->
  pathname u2 = (pathname u1 ++ "/")%string ->
  asWellKnownFromIssuer E i2 = asWellKnownFromIssuer E i1.
Proof.
  intros H1 H2 Hp Hh Hn. unfold asWellKnownFromIssuer.
  rewrite H1, H2, Hp, Hh, Hn, drop_trailing_slash_app. reflexivity.
Qed.

(* ====================================================================== *)
(** * The earlier variant: discovery bound to the remote's origin *)
(* ====================================================================== *)

Section LegacyDiscovery.

Variable E : Env.

Lemma legacy_discover_eq (w : World) :
  Legacy.discover E w =
  match as_metadata_json (fs w) with
  | Some c =>
      if strict_eq (issuer c) (Some Legacy.OIDC_ISSUER) then (Ret c, w)
      else Legacy.discover_remote E w
  | None => Legacy.discover_remote E w
  end.
Proof.
  unfold Legacy.discover, bind, readJSON. cbn [get DISCOVERY_FILE].
  destruct (as_metadata_json (fs w)) as [c|]; [|reflexivity].
  destruct (strict_eq (issuer c) (Some Legacy.OIDC_ISSUER)); reflexivity.
Qed.

Lemma legacy_discover_remote_cases (w w' : World) (o : Outcome ASMeta) :
  Legacy.discover_remote E w = (o, w') ->
  (fs w' = fs w /\ forall a, o <> Ret a) \/
  (exists a,
     o = Ret a /\ fs w' = put DISCOVERY_FILE a (fs w) /\
     issuer a = Some Legacy.OIDC_ISSUER).
Proof.
  intros Hrun. unfold Legacy.discover_remote in Hrun. cbv zeta in Hrun.
  unfold bind at 1, fetch in Hrun.
  destruct (metadata_server E (trace w) _) as [dt [e| |r]];
    try (failed (@eq_refl bool true) Hrun).
  destruct (negb (ok r)); [failed (@eq_refl bool true) Hrun|].
  unfold bind at 1, res_json in Hrun.
  destruct (json_body r) as [e|conf]; [failed (@eq_refl bool true) Hrun|].
  cbn [ret] in Hrun.
  destruct (negb (Js.truthy_opt (authorization_endpoint conf))
            || negb (Js.truthy_opt (token_endpoint conf)));
    [failed (@eq_refl bool true) Hrun|].
  cbn in Hrun. injection Hrun as <- <-.
  right. eexists. repeat split.
Qed.

(** X20. In the earlier variant, the document that [discover] returns
    always carries the issuer derived from the remote endpoint, whatever
    the server declared and whatever was cached for another issuer; it is
    the one the store holds afterwards, and a second [discover] returns it
    without any effect. *)
Theorem legacy_discover_binds_issuer (w w1 : World) (a : ASMeta) :
  Legacy.discover E w = (Ret a, w1) ->
  issuer a = Some Legacy.OIDC_ISSUER /\
  as_metadata_json (fs w1) = Some a /\
  Legacy.discover E w1 = (Ret a, w1).
Proof.
  intros H.
  assert (Hhit : forall w0 d, as_metadata_json (fs w0) = Some d ->
                   issuer d = Some Legacy.OIDC_ISSUER ->
                   Legacy.discover E w0 = (Ret d, w0)).
  { intros w0 d Hd Hi. rewrite legacy_discover_eq, Hd, Hi, strict_eq_refl. reflexivity. }
  assert (Hmiss : Legacy.discover_remote E w = (Ret a, w1) ->
                  issuer a = Some Legacy.OIDC_ISSUER /\
                  as_metadata_json (fs w1) = Some a /\
                  Legacy.discover E w1 = (Ret a, w1)).
  { intros Hr.
    destruct (legacy_discover_remote_cases w w1 _ Hr) as [[_ Hn] | [a' [Hr' [Hfs Hi]]]].
    - exfalso. exact (Hn a eq_refl).
    - injection Hr' as <-.
      assert (Hs : as_metadata_json (fs w1) = Some a) by (rewrite Hfs; reflexivity).
      repeat split; try assumption. apply Hhit; assumption. }
  rewrite legacy_discover_eq in H.
  destruct (as_metadata_json (fs w)) as [d|] eqn:Hd; [|exact (Hmiss H)].
  destruct (strict_eq (issuer d) (Some Legacy.OIDC_ISSUER)) eqn:Hi; [|exact (Hmiss H)].
  injection H as <- <-. apply strict_eq_eq in Hi.
  repeat split; try assumption. apply Hhit; assumption.
Qed.

End LegacyDiscovery.

(* ====================================================================== *)
(** * The properties on concrete runs *)
(* ====================================================================== *)

Ltac by_running := vm_compute; first [reflexivity | discriminate | repeat split; discriminate].

Lemma on_line_throws_only_on_null_witness :
  let E := Scenario.env Scenario.refusing Scenario.unreachable [] in
  let w := Scenario.boot (Scenario.files None (Some (Scenario.idp None)) None) in
  fst (on_line E "null" w) = Throw "Cannot read properties of null (reading 'id')" /\
  JSON_parse E "null" = Some JNull.
Proof.
  intros E w.
  assert (H : fst (on_line E "null" w) = Throw "Cannot read properties of null (reading 'id')")
    by by_running.
  split; [exact H|].
  exact (on_line_throws_only_on_null E "null" w _ H).
Defined.

Lemma on_data_writes_whole_lines_witness :
  let E := Demo.env Scenario.unreachable Scenario.refusing (Demo.remote_status 200) [] in
  Forall one_line
    (stdout (snd (on_data E EmptyString
                    (json_line Scenario.ping ++ "oops" ++ String Js.nl "rest") Demo.warm))).
Proof.
  intros E. apply (on_data_writes_whole_lines E). constructor.
Defined.

Lemma on_data_one_response_per_line_witness :
  let E := Demo.env Scenario.unreachable Scenario.refusing (Demo.remote_status 200) [] in
  let input := (json_line Scenario.ping ++ "  " ++ String Js.nl ("oops" ++ String Js.nl "rest"))%string in
  let out := on_data E EmptyString input Demo.warm in
  fst out = Ret (Some "rest") /\
  List.length (stdout (snd out)) = 2%nat.
Proof.
  intros E input out.
  assert (H : on_data E EmptyString input Demo.warm = (Ret (Some "rest"), snd out))
    by by_running.
  split; [by_running|].
  destruct (on_data_one_response_per_line E EmptyString input "rest" Demo.warm (snd out) H)
    as [_ Hn].
  rewrite Hn. by_running.
Defined.

Lemma on_data_chunking_witness :
  let E := Demo.env Scenario.unreachable Scenario.refusing (Demo.remote_status 200) [] in
  let a := "{'jsonrpc':'2.0'," in
  let c := ("'id':1,'method':'ping'}" ++ String Js.nl EmptyString)%string in
  on_data E (dquoted a) (dquoted c) Demo.warm =
  on_data E EmptyString (dquoted a ++ dquoted c) Demo.warm.
Proof.
  intros E a c.
  exact (on_data_chunking E EmptyString (dquoted a) (dquoted c) (dquoted a)
           Demo.warm Demo.warm eq_refl).
Defined.

Lemma discover_caches_its_result_witness :
  let E := Demo.env Scenario.unreachable Scenario.refusing Scenario.unreachable [] in
  let a := set_issuer Demo.tenant Demo.metadata in
  let w1 := snd (discover E Demo.cold) in
  discover E Demo.cold = (Ret a, w1) /\
  as_metadata_json (fs w1) = Some a /\
  discover E w1 = (Ret a, w1).
Proof.
  intros E a w1.
  assert (H : discover E Demo.cold = (Ret a, w1)) by by_running.
  split; [exact H|].
  destruct (discover_caches_its_result E Demo.cold w1 a H) as [H1 [_ [_ [_ H2]]]].
  split; assumption.
Defined.

Lemma dynamicRegister_caches_its_result_witness :
  let E := Demo.env (Demo.answering Demo.registration) Scenario.refusing
             Scenario.unreachable [] in
  let a := set_issuer Demo.tenant Demo.metadata in
  let w := Scenario.boot (Scenario.files None None (Some Scenario.app)) in
  let w1 := snd (dynamicRegister E a w) in
  dynamicRegister E a w = (Ret Demo.client, w1) /\
  client_metadata_json (fs w1) = Some Demo.client /\
  dynamicRegister E a w1 = (Ret Demo.client, w1).
Proof.
  intros E a w w1.
  assert (H : dynamicRegister E a w = (Ret Demo.client, w1)) by by_running.
  split; [exact H|].
  destruct (dynamicRegister_caches_its_result E a w w1 Demo.client H) as [H1 [_ H2]].
  split; assumption.
Defined.

Lemma dynamicRegister_failure_keeps_store_witness :
  let E := Demo.env (fun _ _ => (3, Scenario.http 403 "forbidden" (inl "Unexpected token")))
             Scenario.refusing Scenario.unreachable [] in
  let a := set_issuer Demo.tenant Demo.metadata in
  let w := Scenario.boot (Scenario.files None None (Some Scenario.app)) in
  fst (dynamicRegister E a w) = Throw "[oidc] registration failed 403: forbidden" /\
  fs (snd (dynamicRegister E a w)) = fs w.
Proof.
  intros E a w.
  assert (H : fst (dynamicRegister E a w) = Throw "[oidc] registration failed 403: forbidden")
    by by_running.
  split; [exact H|].
  apply (dynamicRegister_failure_keeps_store E a w).
  intros c Hc. rewrite H in Hc. discriminate Hc.
Defined.

Lemma ensureToken_result_is_stored_witness :
  let answer := Scenario.token "new" None (Some 3600) None in
  let E := Demo.env Scenario.unreachable (Scenario.granting answer) Scenario.unreachable
             [(10, Some Demo.favicon); (1000, Some Demo.genuine)] in
  let tok := Scenario.token "new" None (Some 3600) (Some 2000003571) in
  let w1 := snd (ensureToken E (Scenario.idp None) Scenario.app Demo.cold) in
  ensureToken E (Scenario.idp None) Scenario.app Demo.cold = (Ret tok, w1) /\
  tokens_json (fs w1) = Some tok.
Proof.
  intros answer E tok w1.
  assert (H : ensureToken E (Scenario.idp None) Scenario.app Demo.cold = (Ret tok, w1))
    by by_running.
  split; [exact H|].
  exact (proj1 (ensureToken_result_is_stored E _ _ _ _ _ H)).
Defined.

Lemma fetched_token_reuse_threshold_witness :
  let short := Scenario.token "brief" (Some "R2") (Some 90) None in
  let E := Demo.env Scenario.unreachable (Scenario.granting short) Scenario.unreachable [] in
  let tok := Scenario.token "brief" (Some "R2") (Some 90) (Some 2000000060) in
  let w1 := snd (fetchToken E (Scenario.idp None) Scenario.app [] Demo.cold) in
  fetchToken E (Scenario.idp None) Scenario.app [] Demo.cold = (Ret tok, w1) /\
  fresh tok (clock w1 / 1000) = false.
Proof.
  intros short E tok w1.
  assert (H : fetchToken E (Scenario.idp None) Scenario.app [] Demo.cold = (Ret tok, w1))
    by by_running.
  split; [exact H|].
  rewrite (proj1 (fetched_token_reuse_threshold E _ _ _ _ _ _ H eq_refl
                    ltac:(vm_compute; discriminate) ltac:(vm_compute; discriminate))).
  reflexivity.
Defined.

Lemma remote_failure_is_answered_witness :
  let E := Demo.env Scenario.unreachable Scenario.refusing (Demo.remote_status 500) [] in
  handleRequest E Scenario.ping Demo.warm =
  (Ret (Json.rpc_error (JNum 1) (-32001) "[remote] 500: down"),
   forwarded Scenario.ping "cached" 5 Demo.warm).
Proof.
  intros E.
  exact (remote_failure_is_answered E Scenario.ping (Some (JNum 1))
           Demo.warm Demo.warm Demo.warm Demo.warm (Scenario.idp None) Scenario.app
           Demo.cached_token 5 _ eq_refl eq_refl eq_refl eq_refl eq_refl
           ltac:(discriminate) eq_refl).
Defined.


Lemma success_is_relayed_witness :
  let E := Demo.env Scenario.unreachable Scenario.refusing (Demo.remote_status 200) [] in
  on_line E (Json.stringify Scenario.ping) Demo.warm =
  (Ret tt, print (json_line Scenario.pong) (forwarded Scenario.ping "cached" 5 Demo.warm)).
Proof.
  intros E.
  exact (success_is_relayed E (Json.stringify Scenario.ping) Scenario.ping Scenario.pong
           Demo.warm Demo.warm Demo.warm Demo.warm (Scenario.idp None) Scenario.app
           Demo.cached_token 5 _ ltac:(vm_compute; discriminate)
           eq_refl eq_refl eq_refl eq_refl eq_refl eq_refl eq_refl).
Defined.

Lemma pkce_pair_shape_witness :
  String.length (code_verifier (genPKCE rfc7636_octets)) = 43%nat /\
  all_of url_safe (code_verifier (genPKCE rfc7636_octets)) = true /\
  String.length (code_challenge (genPKCE rfc7636_octets)) = 43%nat /\
  all_of url_safe (code_challenge (genPKCE rfc7636_octets)) = true.
Proof. exact (pkce_pair_shape rfc7636_octets eq_refl). Defined.

Lemma serve_resolves_only_on_matching_state_witness :
  let inbound := [(10, Some Demo.favicon); (1000, Some Demo.genuine)] in
  let w1 := snd (serve "AQEBAQEBAQEBAQEBAQEBAQ" inbound Demo.cold) in
  serve "AQEBAQEBAQEBAQEBAQEBAQ" inbound Demo.cold = (Ret "abc", w1) /\
  listener w1 = Bound (Some (clock w1 + 100)).
Proof.
  intros inbound w1.
  assert (H : serve "AQEBAQEBAQEBAQEBAQEBAQ" inbound Demo.cold = (Ret "abc", w1))
    by by_running.
  split; [exact H|].
  exact (proj2 (serve_resolves_only_on_matching_state _ _ _ _ _ H)).
Defined.

Lemma completed_login_closes_listener_witness :
  let answer := Scenario.token "new" None (Some 3600) None in
  let E := Demo.env Scenario.unreachable (Scenario.granting answer) Scenario.unreachable
             [(10, Some Demo.favicon); (1000, Some Demo.genuine)] in
  let tok := Scenario.token "new" None (Some 3600) (Some 2000003571) in
  let w1 := snd (interactiveLogin E (Scenario.idp None) Scenario.app Demo.cold) in
  interactiveLogin E (Scenario.idp None) Scenario.app Demo.cold = (Ret tok, w1) /\
  exists t, listener w1 = Bound (Some t).
Proof.
  intros answer E tok w1.
  assert (H : interactiveLogin E (Scenario.idp None) Scenario.app Demo.cold = (Ret tok, w1))
    by by_running.
  split; [exact H|].
  exact (completed_login_closes_listener E _ _ _ _ _ H).
Defined.

Lemma asWellKnownFromIssuer_ignores_trailing_slash_witness :
  let E := Demo.env Scenario.unreachable Scenario.refusing Scenario.unreachable [] in
  asWellKnownFromIssuer E "https://idp.example.com/tenants/acme/" =
  asWellKnownFromIssuer E "https://idp.example.com/tenants/acme".
Proof.
  intros E.
  exact (asWellKnownFromIssuer_ignores_trailing_slash E
           "https://idp.example.com/tenants/acme" "https://idp.example.com/tenants/acme/"
           _ _ eq_refl eq_refl eq_refl eq_refl eq_refl).
Defined.


Lemma legacy_discover_binds_issuer_witness :
  let E := Demo.env Scenario.unreachable Scenario.refusing Scenario.unreachable [] in
  let a := set_issuer Legacy.OIDC_ISSUER Demo.metadata in
  let w1 := snd (Legacy.discover E Demo.warm) in
  Legacy.discover E Demo.warm = (Ret a, w1) /\
  issuer a = Some Legacy.OIDC_ISSUER /\
  Legacy.discover E w1 = (Ret a, w1).
Proof.
  intros E a w1.
  assert (H : Legacy.discover E Demo.warm = (Ret a, w1)) by by_running.
  split; [exact H|].
  destruct (legacy_discover_binds_issuer E Demo.warm w1 a H) as [H1 [_ H2]].
  split; assumption.
Defined.
